(** * Stale-lease watchdog of the Azure Event Hub input (filebeat)

    A shallow embedding of
      - x-pack/filebeat/input/azureeventhub/lease.go  (LeaseFixer)
      - x-pack/filebeat/input/azureeventhub/eph.go    (runWithEPH)
    and the properties of the lease snapshot reader, the staleness check, the
    idle-activity watchdog loop and the event handler's failure policy.

    The Go code talks to three collaborators it does not own: the Event
    Processor Host (scheduler), the blob store holding one lease blob per
    partition, and the wall clock.  They are modelled by a [World]: a record
    of oracles that answer each call as a function of the history of
    interactions so far.  Every operation of the program is a computation in
    the monad [M], which reads that history, appends the events it performs
    and either returns a value or panics. *)

From Stdlib Require Import ZArith List String Bool Lia.
From stdpp Require Import base option list strings gmap.
Import ListNotations.

Local Open Scope string_scope.
Local Open Scope Z_scope.
Local Open Scope list_scope.

(** ** Go's [time] package, as far as the watchdog uses it *)

Module time.

(** [time.Duration] is an int64 count of nanoseconds; [time.Time] is an
    instant, here the count of nanoseconds since the epoch. *)
Definition Duration := Z.
Definition Time := Z.

Definition Nanosecond : Duration := 1.
Definition Second : Duration := 1000000000 * Nanosecond.
Definition Minute : Duration := 60 * Second.

Definition Add (t : Time) (d : Duration) : Time := t + d.
Definition Before (t u : Time) : bool := Z.ltb t u.

End time.

(** Go's [int] on the 64-bit platforms the beat is built for: arithmetic
    wraps around. *)
Definition max_int : Z := 2 ^ 63 - 1.
Definition min_int : Z := - 2 ^ 63.
Definition wrap_int (z : Z) : Z := (z + 2 ^ 63) mod 2 ^ 64 - 2 ^ 63.

(** ** Data model *)

(** [persist.Checkpoint] *)
Record Checkpoint := mkCheckpoint {
  Offset : string;
  SequenceNumber : Z;
  EnqueueTime : time.Time
}.

(** [eph.Lease] *)
Record Lease := mkLease {
  PartitionID : string;
  Epoch : Z;
  Owner : string
}.

(** [azblob.LeaseStateType] *)
Inductive LeaseStateType :=
| LeaseStateNone
| LeaseStateAvailable
| LeaseStateLeased
| LeaseStateExpired
| LeaseStateBreaking
| LeaseStateBroken.

(** [StorageLease]: the embedded [*eph.Lease] and [Checkpoint] are pointers,
    [None] is Go's nil. *)
Record StorageLease := mkStorageLease {
  EmbeddedLease : option Lease;
  StorageCheckpoint : option Checkpoint;
  State : LeaseStateType;
  Token : string
}.

Definition withState (lease : StorageLease) (st : LeaseStateType) : StorageLease :=
  {| EmbeddedLease := EmbeddedLease lease;
     StorageCheckpoint := StorageCheckpoint lease;
     State := st;
     Token := Token lease |}.

(** Go's [error] values.  The program never inspects an error, it only tests
    it against nil; the constructors are the kinds the store can answer
    with. *)
Inductive error :=
| NotFoundError
| TransientIOError
| DeserializationError
| TokenInvalidError
| ContextCanceled.

(** [*azblob.DownloadResponse]: what [ioutil.ReadAll] yields on its body and
    the lease state header. *)
Record DownloadResponse := mkDownloadResponse {
  Body : error + string;
  LeaseState : LeaseStateType
}.

(** [LeaseFixer], reduced to the fields that name a blob. *)
Record LeaseFixer := mkLeaseFixer {
  containerName : string;
  accountName : string;
  blobPathPrefix : string
}.

(** [*eventhub.Event], opaque to this code. *)
Record EventData := mkEventData { Data : string }.

(** ** Interaction events and the external world *)

Inductive Level := ErrorLevel | InfoLevel.

Inductive Event :=
| EvBeingProcessed (ids : list string)
| EvGetPartitionIDs (ids : list string)
| EvDownload (blob : string) (res : error + DownloadResponse)
| EvReleaseLease (blob token : string) (res : option error)
| EvNow (t : time.Time)
| EvSleep (d : time.Duration)
| EvLog (lvl : Level) (msg : string)
| EvProcessEvents (e : EventData) (partitionID : string) (ok : bool)
| EvStop
| EvCancelWatcher.

Definition History := list Event.

Record World := mkWorld {
  (** [a.processor.PartitionIDsBeingProcessed()] *)
  PartitionIDsBeingProcessed : History -> list string;
  (** [sl.processor.GetPartitionIDs()] *)
  GetPartitionIDs : History -> list string;
  (** [blobURL.Download(ctx, 0, azblob.CountToEnd, ...)] on the named blob *)
  Download : History -> string -> error + DownloadResponse;
  (** [blobURL.ReleaseLease(ctx, token, ...)] on the named blob *)
  BlobReleaseLease : History -> string -> string -> option error;
  (** [time.Now()] *)
  Now : History -> time.Time;
  (** [json.Unmarshal(b, &lease)] into a zero [StorageLease] *)
  Unmarshal : string -> error + StorageLease;
  (** whether [a.workerCtx] is done *)
  workerCtxDone : History -> bool;
  (** [a.processEvents(e, partitionID)] *)
  processEvents : History -> EventData -> string -> bool
}.

(** ** The monad of the program: history reader, event writer, panic *)

Inductive Res (A : Type) :=
| Val (a : A)
| Panic (msg : string).
Arguments Val {A} a.
Arguments Panic {A} msg.

Definition M (A : Type) : Type := History -> Res A * list Event.

Definition run {A} (m : M A) (h : History) : Res A * list Event := m h.

Definition ret {A} (a : A) : M A := fun _ => (Val a, []).

Definition bind {A B} (m : M A) (f : A -> M B) : M B :=
  fun h =>
    match m h with
    | (Val a, t1) =>
        match f a (h ++ t1) with
        | (r, t2) => (r, t1 ++ t2)
        end
    | (Panic msg, t1) => (Panic msg, t1)
    end.

#[global] Instance M_ret : MRet M := @ret.
#[global] Instance M_bind : MBind M := fun A B f m => bind m f.

Definition panic {A} (msg : string) : M A := fun _ => (Panic msg, []).

Definition lift {A} (r : Res A) : M A := fun _ => (r, []).

Definition emit (e : Event) : M unit := fun _ => (Val tt, [e]).

(** An external call: ask the world, record the answer. *)
Definition ask {A} (answer : History -> A) (ev : A -> Event) : M A :=
  fun h => (Val (answer h), [ev (answer h)]).

Definition nil_dereference : string :=
  "runtime error: invalid memory address or nil pointer dereference".

Section Program.

Variable w : World.

(** ** lease.go *)

(** [NewLeaseFixer]: fails when [url.Parse] rejects the storage URL (the
    parser is an argument); [blobPathPrefix] is not set and keeps its zero
    value, the empty string.  The credential, the environment and the URL
    objects built from them do not reach the model. *)
Definition NewLeaseFixer (urlParse : string -> error + string)
    (account container storageEndpointSuffix : string) : error + LeaseFixer :=
  match urlParse (String.append "https://"
                    (String.append account (String.append ".blob." storageEndpointSuffix))) with
  | inl err => inl err
  | inr _ =>
      inr {| containerName := container; accountName := account; blobPathPrefix := "" |}
  end.

Definition leaseFromResponse (res : DownloadResponse) : error + StorageLease :=
  match Body res with
  | inl err => inl err
  | inr b =>
      match Unmarshal w b with
      | inl err => inl err
      | inr lease => inr (withState lease (LeaseState res))
      end
  end.

Definition getLease (sl : LeaseFixer) (partitionID : string) : M (error + StorageLease) :=
  let blob := String.append (blobPathPrefix sl) partitionID in
  res ← ask (fun h => Download w h blob) (EvDownload blob);
  match res with
  | inl err => mret (inl err)
  | inr res => mret (leaseFromResponse res)
  end.

(** The [for i, pid := range pids] loop of [GetLeases]; [leases] is the slice
    made by [make([]*StorageLease, len(pids))], written by index. *)
Fixpoint GetLeases_loop (sl : LeaseFixer) (i : nat) (pids : list string)
    (leases : list (option StorageLease)) : M (error + list (option StorageLease)) :=
  match pids with
  | [] => mret (inr leases)
  | pid :: rest =>
      r ← getLease sl pid;
      match r with
      | inl err => mret (inl err)
      | inr lease => GetLeases_loop sl (S i) rest (<[i := Some lease]> leases)
      end
  end.

Definition GetLeases (sl : LeaseFixer) : M (error + list (option StorageLease)) :=
  pids ← ask (GetPartitionIDs w) EvGetPartitionIDs;
  GetLeases_loop sl 0 pids (replicate (length pids) None).

(** [lease.GetPartitionID()], promoted from the embedded [*eph.Lease]. *)
Definition GetPartitionID (lease : StorageLease) : Res string :=
  match EmbeddedLease lease with
  | None => Panic nil_dereference
  | Some l => Val (PartitionID l)
  end.

Definition ReleaseLease (sl : LeaseFixer) (lease : StorageLease) : M (option error) :=
  pid ← lift (GetPartitionID lease);
  let blob := String.append (blobPathPrefix sl) pid in
  ask (fun h => BlobReleaseLease w h blob (Token lease)) (EvReleaseLease blob (Token lease)).

(** ** eph.go: the event handler registered by [runWithEPH] *)

Definition onEventErrMsg : string :=
  "OnEvent function returned false. Stopping input worker".

(** The closure passed to [RegisterHandler].  [a.log.Error], [a.Stop()] and
    [cancelWatcher()] are recorded as events; [panic(onEventErr)] ends the
    computation. *)
Definition handler (e : EventData) : M (option string) :=
  ok ← ask (fun h => processEvents w h e "") (EvProcessEvents e "");
  if negb ok then
    emit (EvLog ErrorLevel onEventErrMsg);;
    emit EvStop;;
    emit EvCancelWatcher;;
    panic onEventErrMsg
  else mret None.

(** ** eph.go: the watchdog goroutine of [runWithEPH] *)

Definition idleTickThreshold : Z := 60.
Definition stalenessWindow : time.Duration := 30 * time.Minute.
Definition pollInterval : time.Duration := 1 * time.Second.

Definition isCancelWatcher (e : Event) : bool :=
  match e with
  | EvCancelWatcher => true
  | _ => false
  end.

(** [watcherCtx, cancelWatcher := context.WithCancel(a.workerCtx)]: the
    context is done once its parent is done or [cancelWatcher] was called. *)
Definition watcherCtxDone (h : History) : bool :=
  workerCtxDone w h || existsb isCancelWatcher h.

(** Lines 127-132: the activity observation of a tick. *)
Definition observe (zeroCount : Z) : M Z :=
  ids ← ask (PartitionIDsBeingProcessed w) EvBeingProcessed;
  if Nat.eqb (length ids) 0 then mret (wrap_int (zeroCount + 1)) else mret 0.

(** The condition of line 143, with the window and the clock reading as
    arguments: [lease.Checkpoint.EnqueueTime.Before(now.Add(-window))].
    [lease.Checkpoint] is dereferenced without a nil check. *)
Definition isStale (window : time.Duration) (now : time.Time) (lease : StorageLease) : Res bool :=
  match StorageCheckpoint lease with
  | None => Panic nil_dereference
  | Some cp => Val (time.Before (EnqueueTime cp) (time.Add now (- window)))
  end.

(** Lines 142-149: the body of [for _, lease := range leases].  The clock is
    read before the checkpoint is loaded (calls are ordered before operand
    loads). *)
Definition checkLease (sl : LeaseFixer) (lastErr : option error)
    (lease : option StorageLease) : M (option error) :=
  now ← ask (Now w) EvNow;
  match lease with
  | None => panic nil_dereference
  | Some lease =>
      stale ← lift (isStale stalenessWindow now lease);
      if stale : bool then
        emit (EvLog ErrorLevel "lease is stale, deleting");;
        err ← ReleaseLease sl lease;
        match err with
        | Some e => emit (EvLog ErrorLevel "error deleting lease");; mret (Some e)
        | None => mret lastErr
        end
      else mret lastErr
  end.

(** Lines 140-150: the release pass, returning [lastErr]. *)
Fixpoint releaseLoop (sl : LeaseFixer) (lastErr : option error)
    (leases : list (option StorageLease)) : M (option error) :=
  match leases with
  | [] => mret lastErr
  | lease :: rest =>
      lastErr' ← checkLease sl lastErr lease;
      releaseLoop sl lastErr' rest
  end.

Definition releasePass (sl : LeaseFixer) (leases : list (option StorageLease)) : M (option error) :=
  releaseLoop sl None leases.

(** Lines 133-156: the scan guarded by the idle threshold. *)
Definition scan (sl : LeaseFixer) (zeroCount : Z) : M Z :=
  if zeroCount >? idleTickThreshold then
    emit (EvLog ErrorLevel "process is idle for a while");;
    r ← GetLeases sl;
    match r with
    | inl err => emit (EvLog ErrorLevel "error getting leases");; mret zeroCount
    | inr leases =>
        lastErr ← releasePass sl leases;
        match lastErr with
        | None => mret 0
        | Some _ => mret zeroCount
        end
    end
  else mret zeroCount.

(** The [default:] branch of the select without the final sleep. *)
Definition tick (sl : LeaseFixer) (zeroCount : Z) : M Z :=
  zeroCount' ← observe zeroCount;
  scan sl zeroCount'.

Inductive LoopExit := Returned | OutOfFuel.

(** The [for { select { ... } }] loop, [fuel] bounding the iterations. *)
Fixpoint watchdogLoop (fuel : nat) (sl : LeaseFixer) (zeroCount : Z) : M LoopExit :=
  match fuel with
  | O => mret OutOfFuel
  | S fuel' =>
      fun h =>
        if watcherCtxDone h then (Val Returned, [])
        else
          run (zeroCount' ← tick sl zeroCount;
               emit (EvSleep pollInterval);;
               watchdogLoop fuel' sl zeroCount') h
  end.

(** The goroutine: [zeroCount := 0] and the loop. *)
Definition watchdog (fuel : nat) (sl : LeaseFixer) : M LoopExit :=
  watchdogLoop fuel sl 0.

End Program.

(** ** Reading traces *)

(** What [getLease] makes of the store's answer to its download. *)
Definition readOutcome (w : World) (res : error + DownloadResponse) : error + StorageLease :=
  match res with
  | inl err => inl err
  | inr res => leaseFromResponse w res
  end.

Definition blobName (sl : LeaseFixer) (partitionID : string) : string :=
  String.append (blobPathPrefix sl) partitionID.

Definition isDownload (e : Event) : bool :=
  match e with
  | EvDownload _ _ => true
  | _ => false
  end.

Definition isRelease (e : Event) : bool :=
  match e with
  | EvReleaseLease _ _ _ => true
  | _ => false
  end.

Definition isFailedRelease (e : Event) : bool :=
  match e with
  | EvReleaseLease _ _ (Some _) => true
  | _ => false
  end.

(** A store scan begins with the query for the partition IDs. *)
Definition isScan (e : Event) : bool :=
  match e with
  | EvGetPartitionIDs _ => true
  | _ => false
  end.

(** Calls that reach the scheduler's partition list or the blob store. *)
Definition isStoreCall (e : Event) : bool :=
  isScan e || isDownload e || isRelease e.

Definition staleLog : Event := EvLog ErrorLevel "lease is stale, deleting".
Definition releaseFailedLog : Event := EvLog ErrorLevel "error deleting lease".
Definition idleLog : Event := EvLog ErrorLevel "process is idle for a while".
Definition snapshotFailedLog : Event := EvLog ErrorLevel "error getting leases".

(** The blobs downloaded in a trace, in order. *)
Definition downloads (tr : list Event) : list string :=
  omap (fun e => match e with EvDownload blob _ => Some blob | _ => None end) tr.

(** The (blob, token) pairs released in a trace, in order. *)
Definition releases (tr : list Event) : list (string * string) :=
  omap (fun e => match e with EvReleaseLease blob tok _ => Some (blob, tok) | _ => None end) tr.

(** ** eph.go: the cloud environments *)

(** [azure.Environment], reduced to the fields this package reads. *)
Record Environment := mkEnvironment {
  EnvironmentName : string;
  ResourceManagerEndpoint : string;
  StorageEndpointSuffix : string
}.

(** What the package takes from [go-autorest/autorest/azure]: the four
    predefined clouds and [azure.EnvironmentFromURL]. *)
Record AzurePkg := mkAzurePkg {
  ChinaCloud : Environment;
  GermanCloud : Environment;
  PublicCloud : Environment;
  USGovernmentCloud : Environment;
  EnvironmentFromURL : string -> error + Environment
}.

(** [var environments]: the map literal, its entries stored in source order
    under each cloud's resource manager endpoint. *)
Definition environments (az : AzurePkg) : gmap string Environment :=
  <[ResourceManagerEndpoint (USGovernmentCloud az) := USGovernmentCloud az]>
    (<[ResourceManagerEndpoint (PublicCloud az) := PublicCloud az]>
       (<[ResourceManagerEndpoint (GermanCloud az) := GermanCloud az]>
          (<[ResourceManagerEndpoint (ChinaCloud az) := ChinaCloud az]> ∅))).

Definition getAzureEnvironment (az : AzurePkg) (overrideResManager : string)
    : error + Environment :=
  if String.eqb overrideResManager "" || String.eqb overrideResManager "<no value>"
  then inr (PublicCloud az)
  else
    match environments az !! overrideResManager with
    | Some env => inr env
    | None => EnvironmentFromURL az overrideResManager
    end.

(** ** eph.go: the set-up part of [runWithEPH] *)

(** The fields of [a.config] that [runWithEPH] reads. *)
Record azureInputConfig := mkAzureInputConfig {
  ConnectionString : string;
  EventHubName : string;
  ConsumerGroup : string;
  SAName : string;
  SAKey : string;
  SAContainer : string;
  OverrideEnvironment : string
}.

(** [eph.EventProcessorHostOption] *)
Inductive ProcessorOption :=
| WithConsumerGroup (consumerGroup : string)
| WithNoBanner.

(** The calls of the set-up, in the order they are made. *)
Inductive SetupEvent :=
| SeNewSharedKeyCredential (accountName accountKey : string)
| SeNewStorageLeaserCheckpointer (accountName containerName : string) (env : Environment)
| SeNewFromConnectionString (connStr : string) (opts : list ProcessorOption)
| SeRegisterHandler
| SeStartNonBlocking
| SeErrorw (msg : string) (err : error)
| SeInfof (handlerID : string)
| SeGoWatchdog (lf : LeaseFixer).

(** The answers of the SDK constructors and of [url.Parse]. *)
Record Sdk := mkSdk {
  NewSharedKeyCredential : string -> string -> option error;
  NewStorageLeaserCheckpointer : string -> string -> Environment -> option error;
  NewFromConnectionString : string -> list ProcessorOption -> option error;
  RegisterHandler : error + string;
  StartNonBlocking : option error;
  urlParse : string -> error + string
}.

(** Set-up computations: an error or a value, and the calls made. *)
Definition Setup (A : Type) : Type := (error + A) * list SetupEvent.

Definition setup_ret {A} (a : A) : Setup A := (inr a, []).

Definition setup_bind {A B} (m : Setup A) (f : A -> Setup B) : Setup B :=
  match m with
  | (inr a, t1) =>
      match f a with
      | (r, t2) => (r, t1 ++ t2)
      end
  | (inl err, t1) => (inl err, t1)
  end.

#[global] Instance Setup_ret : MRet Setup := @setup_ret.
#[global] Instance Setup_bind : MBind Setup := fun A B f m => setup_bind m f.

(** A call that answers with an error or nil. *)
Definition setup_call (ev : SetupEvent) (r : option error) : Setup unit :=
  match r with
  | Some err => (inl err, [ev])
  | None => (inr tt, [ev])
  end.

(** A call that answers with a value or an error. *)
Definition setup_call_val {A} (evs : list SetupEvent) (r : error + A) : Setup A := (r, evs).

(** [if err != nil { a.log.Errorw(msg, "error", err); return err }] *)
Definition logged {A} (msg : string) (m : Setup A) : Setup A :=
  match m with
  | (inl err, t) => (inl err, t ++ [SeErrorw msg err])
  | (inr a, t) => (inr a, t)
  end.

(** [runWithEPH] up to the start of the watchdog goroutine.
    [eventHubConnector] is a constant of the package. *)
Definition runWithEPH (az : AzurePkg) (sdk : Sdk) (eventHubConnector : string)
    (cfg : azureInputConfig) : Setup unit :=
  setup_call (SeNewSharedKeyCredential (SAName cfg) (SAKey cfg))
    (NewSharedKeyCredential sdk (SAName cfg) (SAKey cfg));;
  env ← setup_call_val [] (getAzureEnvironment az (OverrideEnvironment cfg));
  logged "error creating storage leaser checkpointer"
    (setup_call (SeNewStorageLeaserCheckpointer (SAName cfg) (SAContainer cfg) env)
       (NewStorageLeaserCheckpointer sdk (SAName cfg) (SAContainer cfg) env));;
  let connStr :=
    String.append (ConnectionString cfg) (String.append eventHubConnector (EventHubName cfg)) in
  let opts :=
    if negb (String.eqb (ConsumerGroup cfg) "")
    then [WithConsumerGroup (ConsumerGroup cfg); WithNoBanner]
    else [WithNoBanner] in
  logged "error creating processor"
    (setup_call (SeNewFromConnectionString connStr opts)
       (NewFromConnectionString sdk connStr opts));;
  handlerID ← logged "error registering handler"
    (setup_call_val [SeRegisterHandler] (RegisterHandler sdk));
  setup_call_val [SeInfof handlerID] (inr tt);;
  logged "error starting the processor"
    (setup_call SeStartNonBlocking (StartNonBlocking sdk));;
  lf ← logged "error creating lease fixer"
    (setup_call_val []
       (NewLeaseFixer (urlParse sdk) (SAName cfg) (SAContainer cfg) (StorageEndpointSuffix env)));
  setup_call_val [SeGoWatchdog lf] (inr tt).

(** ** Reading set-up traces *)

(** The connection string handed to the processor. *)
Definition connectionStringOf (eventHubConnector : string) (cfg : azureInputConfig) : string :=
  String.append (ConnectionString cfg) (String.append eventHubConnector (EventHubName cfg)).

(** The options handed to the processor. *)
Definition processorOptionsOf (cfg : azureInputConfig) : list ProcessorOption :=
  if String.eqb (ConsumerGroup cfg) "" then [WithNoBanner]
  else [WithConsumerGroup (ConsumerGroup cfg); WithNoBanner].

Definition isGoWatchdog (e : SetupEvent) : bool :=
  match e with
  | SeGoWatchdog _ => true
  | _ => false
  end.

Definition isErrorw (e : SetupEvent) : bool :=
  match e with
  | SeErrorw _ _ => true
  | _ => false
  end.

(** ** More ways to read a trace *)

Definition isNow (e : Event) : bool :=
  match e with
  | EvNow _ => true
  | _ => false
  end.

(** The events a scan can produce. *)
Definition isScanEvent (e : Event) : bool :=
  match e with
  | EvGetPartitionIDs _ | EvDownload _ _ | EvReleaseLease _ _ _ | EvNow _ | EvLog _ _ => true
  | _ => false
  end.

(** The events the watchdog goroutine can produce: everything but the
    handler's. *)
Definition isWatchdogEvent (e : Event) : bool :=
  match e with
  | EvProcessEvents _ _ _ | EvStop | EvCancelWatcher => false
  | _ => true
  end.

(** A snapshot entry whose checkpoint is within the window at every reading
    of the world's clock. *)
Definition alwaysFresh (w : World) (lease : option StorageLease) : Prop :=
  exists l cp,
    lease = Some l /\ StorageCheckpoint l = Some cp /\
    forall h, Now w h - EnqueueTime cp <= stalenessWindow.

(** The answers to the scans' partition ID queries in a trace, in order. *)
Definition scanQueries (tr : list Event) : list (list string) :=
  omap (fun e => match e with EvGetPartitionIDs ids => Some ids | _ => None end) tr.

(** The clock readings of a trace, in order. *)
Definition clockReads (tr : list Event) : list time.Time :=
  omap (fun e => match e with EvNow t => Some t | _ => None end) tr.

(** The durations slept in a trace, in order. *)
Definition sleeps (tr : list Event) : list time.Duration :=
  omap (fun e => match e with EvSleep d => Some d | _ => None end) tr.

(** The activity observations of a trace, in order. *)
Definition observations (tr : list Event) : list (list string) :=
  omap (fun e => match e with EvBeingProcessed ids => Some ids | _ => None end) tr.

(** The blob and token [ReleaseLease] would address for a snapshot entry. *)
Definition releaseTarget (sl : LeaseFixer) (lease : option StorageLease)
    : option (string * string) :=
  match lease with
  | Some l =>
      match EmbeddedLease l with
      | Some el => Some (blobName sl (PartitionID el), Token l)
      | None => None
      end
  | None => None
  end.

(** A snapshot entry with a checkpoint and an embedded lease. *)
Definition complete (lease : option StorageLease) : bool :=
  match lease with
  | Some l =>
      match StorageCheckpoint l, EmbeddedLease l with
      | Some _, Some _ => true
      | _, _ => false
      end
  | None => false
  end.

(** The release target of an entry that is stale at clock reading [now]. *)
Definition staleTarget (sl : LeaseFixer) (now : time.Time) (lease : option StorageLease)
    : option (string * string) :=
  match lease with
  | Some l =>
      match isStale stalenessWindow now l with
      | Val true => releaseTarget sl lease
      | _ => None
      end
  | None => None
  end.

(** ** Example worlds *)

Module Examples.

Definition minutes (n : Z) : time.Time := n * time.Minute.

Definition lease_with (pid tok : string) (enqueued : time.Time) : StorageLease :=
  {| EmbeddedLease := Some {| PartitionID := pid; Epoch := 1; Owner := "host-a" |};
     StorageCheckpoint := Some {| Offset := "42"; SequenceNumber := 7; EnqueueTime := enqueued |};
     State := LeaseStateNone;
     Token := tok |}.

Definition lease_without_checkpoint (pid tok : string) : StorageLease :=
  {| EmbeddedLease := Some {| PartitionID := pid; Epoch := 1; Owner := "host-a" |};
     StorageCheckpoint := None;
     State := LeaseStateNone;
     Token := tok |}.

(** The clock of the examples reads 100 minutes after the epoch. *)
Definition now0 : time.Time := minutes 100.

(** A stand-in for the JSON decoder on four payloads. *)
Definition decode (b : string) : error + StorageLease :=
  if String.eqb b "stale-0" then inr (lease_with "0" "token-0" (minutes 69))
  else if String.eqb b "stale-1" then inr (lease_with "1" "token-1" (minutes 69))
  else if String.eqb b "fresh-1" then inr (lease_with "1" "token-1" (minutes 95))
  else if String.eqb b "no-checkpoint-0" then inr (lease_without_checkpoint "0" "token-0")
  else inl DeserializationError.

Definition payload (b : string) : error + DownloadResponse :=
  inr {| Body := inr b; LeaseState := LeaseStateLeased |}.

Definition world (active : list string) (blob0 blob1 : error + DownloadResponse)
    (released : option error) (done : History -> bool) (accepted : bool) : World :=
  {| PartitionIDsBeingProcessed := fun _ => active;
     GetPartitionIDs := fun _ => ["0"; "1"];
     Download := fun _ blob => if String.eqb blob "0" then blob0 else blob1;
     BlobReleaseLease := fun _ _ _ => released;
     Now := fun _ => now0;
     Unmarshal := decode;
     workerCtxDone := done;
     processEvents := fun _ _ _ => accepted |}.

Definition never : History -> bool := fun _ => false.

(** One stale and one fresh partition, releases succeed. *)
Definition w_idle : World :=
  world [] (payload "stale-0") (payload "fresh-1") None never true.

(** The same, with one partition being processed. *)
Definition w_active : World :=
  world ["1"] (payload "stale-0") (payload "fresh-1") None never true.

(** The release of the stale lease is refused: the token is no longer valid. *)
Definition w_token_invalid : World :=
  world [] (payload "stale-0") (payload "fresh-1") (Some TokenInvalidError) never true.

(** The release of the stale lease fails on the network. *)
Definition w_release_io : World :=
  world [] (payload "stale-0") (payload "fresh-1") (Some TransientIOError) never true.

(** The blob of partition 0 cannot be read, partition 1 is stale. *)
Definition w_read_fails : World :=
  world [] (inl TransientIOError) (payload "stale-1") None never true.

(** The record of partition 0 has no checkpoint. *)
Definition w_no_checkpoint : World :=
  world [] (payload "no-checkpoint-0") (payload "fresh-1") None never true.

(** The worker context is cancelled as soon as the watchdog has made its
    first observation. *)
Definition w_cancel_mid_tick : World :=
  world ["1"] (payload "stale-0") (payload "fresh-1") None
    (fun h => negb (Nat.eqb (length h) 0)) true.

(** The event callback refuses the event. *)
Definition w_handler_fails : World :=
  world ["1"] (payload "stale-0") (payload "fresh-1") None never false.

(** The fixer [NewLeaseFixer] builds for a well-formed account name. *)
Definition sl0 : LeaseFixer :=
  {| containerName := "container"; accountName := "account"; blobPathPrefix := "" |}.

Definition ev0 : EventData := {| Data := "payload" |}.

End Examples.

(** ** Example set-ups *)

Module SetupExamples.

Definition china : Environment :=
  {| EnvironmentName := "AzureChinaCloud";
     ResourceManagerEndpoint := "https://management.chinacloudapi.cn/";
     StorageEndpointSuffix := "core.chinacloudapi.cn" |}.

Definition german : Environment :=
  {| EnvironmentName := "AzureGermanCloud";
     ResourceManagerEndpoint := "https://management.microsoftazure.de/";
     StorageEndpointSuffix := "core.cloudapi.de" |}.

Definition public : Environment :=
  {| EnvironmentName := "AzurePublicCloud";
     ResourceManagerEndpoint := "https://management.azure.com/";
     StorageEndpointSuffix := "core.windows.net" |}.

Definition usgov : Environment :=
  {| EnvironmentName := "AzureUSGovernmentCloud";
     ResourceManagerEndpoint := "https://management.usgovcloudapi.net/";
     StorageEndpointSuffix := "core.usgovcloudapi.net" |}.

Definition stack : Environment :=
  {| EnvironmentName := "HybridEnvironment";
     ResourceManagerEndpoint := "https://management.local.azurestack.external/";
     StorageEndpointSuffix := "local.azurestack.external" |}.

(** Only the stack's endpoint can be resolved from its URL. *)
Definition az0 : AzurePkg :=
  {| ChinaCloud := china;
     GermanCloud := german;
     PublicCloud := public;
     USGovernmentCloud := usgov;
     EnvironmentFromURL := fun u =>
       if String.eqb u "https://management.local.azurestack.external/"
       then inr stack else inl NotFoundError |}.

Definition cfg0 : azureInputConfig :=
  {| ConnectionString := "Endpoint=sb://hub.example/;SharedAccessKey=k";
     EventHubName := "logs";
     ConsumerGroup := "$Default";
     SAName := "account";
     SAKey := "a2V5";
     SAContainer := "container";
     OverrideEnvironment := "" |}.

(** The same input without a consumer group. *)
Definition cfg_no_group : azureInputConfig :=
  {| ConnectionString := "Endpoint=sb://hub.example/;SharedAccessKey=k";
     EventHubName := "logs";
     ConsumerGroup := "";
     SAName := "account";
     SAKey := "a2V5";
     SAContainer := "container";
     OverrideEnvironment := "https://management.usgovcloudapi.net/" |}.

(** Every constructor succeeds. *)
Definition sdk_ok : Sdk :=
  {| NewSharedKeyCredential := fun _ _ => None;
     NewStorageLeaserCheckpointer := fun _ _ _ => None;
     NewFromConnectionString := fun _ _ => None;
     RegisterHandler := inr "handler-1";
     StartNonBlocking := None;
     urlParse := inr |}.

(** The processor does not start. *)
Definition sdk_start_fails : Sdk :=
  {| NewSharedKeyCredential := fun _ _ => None;
     NewStorageLeaserCheckpointer := fun _ _ _ => None;
     NewFromConnectionString := fun _ _ => None;
     RegisterHandler := inr "handler-1";
     StartNonBlocking := Some TransientIOError;
     urlParse := inr |}.

(** The storage key is rejected. *)
Definition sdk_bad_key : Sdk :=
  {| NewSharedKeyCredential := fun _ _ => Some DeserializationError;
     NewStorageLeaserCheckpointer := fun _ _ _ => None;
     NewFromConnectionString := fun _ _ => None;
     RegisterHandler := inr "handler-1";
     StartNonBlocking := None;
     urlParse := inr |}.

(** A world whose scheduler reports no partition at all. *)
Definition w_no_partitions : World :=
  {| PartitionIDsBeingProcessed := fun _ => [];
     GetPartitionIDs := fun _ => [];
     Download := fun _ _ => inl NotFoundError;
     BlobReleaseLease := fun _ _ _ => None;
     Now := fun _ => Examples.now0;
     Unmarshal := Examples.decode;
     workerCtxDone := fun _ => false;
     processEvents := fun _ _ _ => true |}.

(** Both partitions are stale; the release of partition 0 fails, that of
    partition 1 succeeds. *)
Definition w_first_release_fails : World :=
  {| PartitionIDsBeingProcessed := fun _ => [];
     GetPartitionIDs := fun _ => ["0"; "1"];
     Download := fun _ blob =>
       if String.eqb blob "0" then Examples.payload "stale-0" else Examples.payload "stale-1";
     BlobReleaseLease := fun _ blob _ =>
       if String.eqb blob "0" then Some TransientIOError else None;
     Now := fun _ => Examples.now0;
     Unmarshal := Examples.decode;
     workerCtxDone := fun _ => false;
     processEvents := fun _ _ _ => true |}.

(** A snapshot of two stale records. *)
Definition stale_pair : list (option StorageLease) :=
  [Some (Examples.lease_with "0" "token-0" (Examples.minutes 69));
   Some (Examples.lease_with "1" "token-1" (Examples.minutes 69))].

End SetupExamples.

(** * Properties *)

(** ** The monad *)

Lemma run_bind {A B} (m : M A) (f : A -> M B) (h : History) :
  run (m ≫= f) h =
  match run m h with
  | (Val a, t1) =>
      match run (f a) (h ++ t1) with
      | (r, t2) => (r, t1 ++ t2)
      end
  | (Panic msg, t1) => (Panic msg, t1)
  end.
Proof. reflexivity. Qed.

Lemma run_ret {A} (a : A) (h : History) : run (mret a) h = (Val a, []).
Proof. reflexivity. Qed.

Lemma run_ask {A} (answer : History -> A) (ev : A -> Event) (h : History) :
  run (ask answer ev) h = (Val (answer h), [ev (answer h)]).
Proof. reflexivity. Qed.

Lemma run_emit (e : Event) (h : History) : run (emit e) h = (Val tt, [e]).
Proof. reflexivity. Qed.

(** ** lease.go: the fixer *)

(** A fixer made by [NewLeaseFixer] names the blob of a partition by the
    partition ID alone. *)
Lemma NewLeaseFixer_blobName (urlParse : string -> error + string)
    (account container suffix : string) (sl : LeaseFixer) (pid : string) :
  NewLeaseFixer urlParse account container suffix = inr sl ->
  blobName sl pid = pid.
Proof.
  unfold NewLeaseFixer. destruct (urlParse _) as [err|u]; intros [= <-]. reflexivity.
Qed.

Example NewLeaseFixer_sl0 :
  NewLeaseFixer inr "account" "container" "core.windows.net" = inr Examples.sl0.
Proof. reflexivity. Qed.

(** ** lease.go: the snapshot reader *)

Section Snapshot.

Variable w : World.
Variable sl : LeaseFixer.

Lemma run_getLease (pid : string) (h : History) :
  run (getLease w sl pid) h =
  (Val (readOutcome w (Download w h (blobName sl pid))),
   [EvDownload (blobName sl pid) (Download w h (blobName sl pid))]).
Proof.
  unfold getLease, blobName. rewrite run_bind, run_ask.
  destruct (Download w h _) as [err|res]; reflexivity.
Qed.

(** The snapshot loop never panics. *)
Lemma GetLeases_loop_returns (pids : list string) :
  forall i acc h, exists r, fst (run (GetLeases_loop w sl i pids acc) h) = Val r.
Proof.
  induction pids as [|pid rest IH]; intros i acc h; cbn [GetLeases_loop].
  - eexists. reflexivity.
  - rewrite run_bind, run_getLease.
    destruct (readOutcome w _) as [err|lease].
    + eexists. reflexivity.
    + destruct (IH (S i) (<[i:=Some lease]> acc) (h ++ [EvDownload (blobName sl pid) (Download w h (blobName sl pid))])) as [r Hr].
      destruct (run (GetLeases_loop w sl (S i) rest _) _) as [r' t'].
      exists r. exact Hr.
Qed.

(** A successful run of the loop: every partition was downloaded, in order,
    and slot [i] holds the record decoded from the [i]-th answer. *)
Lemma GetLeases_loop_ok (pids : list string) :
  forall (filled : list (option StorageLease)) h leases tr,
    run (GetLeases_loop w sl (length filled) pids
           (filled ++ replicate (length pids) None)) h = (Val (inr leases), tr) ->
    exists fetched,
      leases = filled ++ fetched /\
      length fetched = length pids /\
      length tr = length pids /\
      forall (i : nat) pid, pids !! i = Some pid ->
        exists res lease,
          tr !! i = Some (EvDownload (blobName sl pid) (inr res)) /\
          leaseFromResponse w res = inr lease /\
          fetched !! i = Some (Some lease).
Proof.
  induction pids as [|pid rest IH]; intros filled h leases tr; cbn [GetLeases_loop].
  - rewrite run_ret. intros [= <- <-]. exists []. repeat split; try reflexivity.
    intros i pid Hi. rewrite lookup_nil in Hi. discriminate.
  - rewrite run_bind, run_getLease.
    destruct (Download w h (blobName sl pid)) as [err|res] eqn:Hd; cbn [readOutcome].
    { rewrite run_ret. intros [= ]. }
    destruct (leaseFromResponse w res) as [err|lease] eqn:Hl.
    { rewrite run_ret. intros [= ]. }
    cbn [length replicate].
    replace (<[length filled:=Some lease]> (filled ++ None :: replicate (length rest) None))
      with ((filled ++ [Some lease]) ++ replicate (length rest) None).
    2:{ rewrite <- (Nat.add_0_r (length filled)) at 1.
        rewrite insert_app_r. cbn. rewrite <- app_assoc. reflexivity. }
    replace (S (length filled)) with (length (filled ++ [Some lease])).
    2:{ rewrite length_app. cbn. lia. }
    destruct (run (GetLeases_loop w sl _ rest _) _) as [r t2] eqn:Hrun.
    intros [= -> <-].
    destruct (IH _ _ _ _ Hrun) as (fetched & -> & Hlen & Htr & Hall).
    exists (Some lease :: fetched). repeat split.
    + rewrite <- app_assoc. reflexivity.
    + cbn. lia.
    + cbn. lia.
    + intros [|i] pid' Hi; cbn in Hi.
      * injection Hi as <-. exists res, lease. repeat split; assumption || reflexivity.
      * exact (Hall i pid' Hi).
Qed.

End Snapshot.

(** ** eph.go: one tick of the watchdog *)

Section Tick.

Variable w : World.
Variable sl : LeaseFixer.

Lemma wrap_int_succ (c : Z) : min_int <= c + 1 <= max_int -> wrap_int (c + 1) = c + 1.
Proof.
  unfold wrap_int, min_int, max_int. intros H.
  rewrite Z.mod_small; lia.
Qed.

Lemma run_observe (c : Z) (h : History) :
  run (observe w c) h =
  (Val (if Nat.eqb (length (PartitionIDsBeingProcessed w h)) 0
        then wrap_int (c + 1) else 0),
   [EvBeingProcessed (PartitionIDsBeingProcessed w h)]).
Proof.
  unfold observe. rewrite run_bind, run_ask.
  destruct (Nat.eqb _ 0); reflexivity.
Qed.

Lemma run_scan_below (c : Z) (h : History) :
  c <= idleTickThreshold -> run (scan w sl c) h = (Val c, []).
Proof.
  intros Hc. unfold scan.
  destruct (Z.gtb_spec c idleTickThreshold); [lia | reflexivity].
Qed.

Lemma run_scan_above (c : Z) (h : History) :
  idleTickThreshold < c ->
  run (scan w sl c) h =
  match run (GetLeases w sl) (h ++ [idleLog]) with
  | (Val (inl err), t1) => (Val c, idleLog :: t1 ++ [snapshotFailedLog])
  | (Val (inr leases), t1) =>
      match run (releasePass w sl leases) ((h ++ [idleLog]) ++ t1) with
      | (Val None, t2) => (Val 0, idleLog :: t1 ++ t2)
      | (Val (Some _), t2) => (Val c, idleLog :: t1 ++ t2)
      | (Panic msg, t2) => (Panic msg, idleLog :: t1 ++ t2)
      end
  | (Panic msg, t1) => (Panic msg, idleLog :: t1)
  end.
Proof.
  intros Hc. unfold scan.
  destruct (Z.gtb_spec c idleTickThreshold); [|lia].
  rewrite run_bind, run_emit, run_bind. fold idleLog.
  destruct (run (GetLeases w sl) (h ++ [idleLog])) as [[[err|leases]|msg] t1].
  - rewrite run_bind, run_emit, run_ret. reflexivity.
  - rewrite run_bind.
    destruct (run (releasePass w sl leases) _) as [[[e|]|msg] t2].
    + rewrite run_ret. cbn. rewrite ?app_nil_r. reflexivity.
    + rewrite run_ret. cbn. rewrite ?app_nil_r. reflexivity.
    + reflexivity.
  - reflexivity.
Qed.

Lemma run_tick (c : Z) (h : History) :
  run (tick w sl c) h =
  match run (observe w c) h with
  | (Val c1, t1) =>
      match run (scan w sl c1) (h ++ t1) with
      | (r, t2) => (r, t1 ++ t2)
      end
  | (Panic msg, t1) => (Panic msg, t1)
  end.
Proof. reflexivity. Qed.

(** The snapshot as a whole: the query, then the loop. *)
Lemma run_GetLeases (h : History) :
  run (GetLeases w sl) h =
  let pids := GetPartitionIDs w h in
  match run (GetLeases_loop w sl 0 pids (replicate (length pids) None))
          (h ++ [EvGetPartitionIDs pids]) with
  | (r, t) => (r, EvGetPartitionIDs pids :: t)
  end.
Proof.
  unfold GetLeases. rewrite run_bind, run_ask. cbn zeta.
  destruct (run (GetLeases_loop w sl 0 _ _) _) as [[r|msg] t]; reflexivity.
Qed.

End Tick.

(** ** eph.go: the release pass *)

Section ReleasePass.

Variable w : World.
Variable sl : LeaseFixer.

(** The check of one record that has a checkpoint and an embedded lease. *)
Lemma run_checkLease (lastErr : option error) (lease : StorageLease)
    (cp : Checkpoint) (l : Lease) (h : History) :
  StorageCheckpoint lease = Some cp ->
  EmbeddedLease lease = Some l ->
  run (checkLease w sl lastErr (Some lease)) h =
  let now := Now w h in
  if time.Before (EnqueueTime cp) (time.Add now (- stalenessWindow)) then
    let blob := blobName sl (PartitionID l) in
    match BlobReleaseLease w (h ++ [EvNow now; staleLog]) blob (Token lease) with
    | Some e =>
        (Val (Some e),
         [EvNow now; staleLog; EvReleaseLease blob (Token lease) (Some e); releaseFailedLog])
    | None =>
        (Val lastErr, [EvNow now; staleLog; EvReleaseLease blob (Token lease) None])
    end
  else (Val lastErr, [EvNow now]).
Proof.
  intros Hcp Hl. unfold checkLease, isStale, ReleaseLease, GetPartitionID, blobName.
  rewrite Hcp, Hl. cbn zeta.
  rewrite run_bind, run_ask.
  destruct (time.Before _ _).
  - unfold run, mbind, M_bind, bind, lift, emit, ask, mret, M_ret, ret.
    rewrite ?app_nil_r, <- ?app_assoc. cbn [app]. fold staleLog.
    change (h ++ EvNow (Now w h) :: [staleLog]) with (h ++ [EvNow (Now w h); staleLog]).
    destruct (BlobReleaseLease w (h ++ [EvNow (Now w h); staleLog]) _ _); reflexivity.
  - reflexivity.
Qed.

(** A record without checkpoint makes the check panic, after the clock was
    read. *)
Lemma run_checkLease_no_checkpoint (lastErr : option error) (lease : StorageLease)
    (h : History) :
  StorageCheckpoint lease = None ->
  run (checkLease w sl lastErr (Some lease)) h = (Panic nil_dereference, [EvNow (Now w h)]).
Proof.
  intros Hcp. unfold checkLease, isStale. rewrite Hcp. reflexivity.
Qed.

(** What one check does to [lastErr]: it is kept when no release failed and
    overwritten by the error of a failed release. *)
Lemma checkLease_lastErr (lastErr : option error) (lease : option StorageLease)
    (h : History) (r : option error) (t : list Event) :
  run (checkLease w sl lastErr lease) h = (Val r, t) ->
  (existsb isFailedRelease t = false /\ r = lastErr) \/
  (existsb isFailedRelease t = true /\ exists e, r = Some e).
Proof.
  unfold checkLease. rewrite run_bind, run_ask.
  destruct lease as [lease|]; [|intros [= ]].
  unfold isStale, ReleaseLease, GetPartitionID.
  destruct (StorageCheckpoint lease) as [cp|]; [|intros [= ]].
  destruct (time.Before _ _).
  - destruct (EmbeddedLease lease) as [l|]; [|intros [= ]].
    unfold run, mbind, M_bind, bind, lift, emit, ask, mret, M_ret, ret.
    destruct (BlobReleaseLease w _ _ _) as [e|]; intros [= <- <-].
    + right. split; [reflexivity | eauto].
    + left. split; reflexivity.
  - intros [= <- <-]. left. split; reflexivity.
Qed.

Lemma releaseLoop_lastErr (leases : list (option StorageLease)) :
  forall lastErr h r t,
    run (releaseLoop w sl lastErr leases) h = (Val r, t) ->
    (existsb isFailedRelease t = false /\ r = lastErr) \/
    (existsb isFailedRelease t = true /\ exists e, r = Some e).
Proof.
  induction leases as [|lease rest IH]; intros lastErr h r t; cbn [releaseLoop].
  - rewrite run_ret. intros [= <- <-]. left. split; reflexivity.
  - rewrite run_bind.
    destruct (run (checkLease w sl lastErr lease) h) as [[r1|msg] t1] eqn:H1; [|intros [= ]].
    destruct (run (releaseLoop w sl r1 rest) (h ++ t1)) as [r2 t2] eqn:H2.
    intros [= -> <-].
    rewrite existsb_app.
    destruct (IH _ _ _ _ H2) as [[Hn2 ->]|[Hf2 He2]].
    + rewrite Hn2, orb_false_r. exact (checkLease_lastErr _ _ _ _ _ H1).
    + rewrite Hf2, orb_true_r. right. split; [reflexivity | exact He2].
Qed.

(** The pass returns no error exactly when no release it issued failed. *)
Lemma releasePass_clean_iff (leases : list (option StorageLease)) (h : History)
    (r : option error) (t : list Event) :
  run (releasePass w sl leases) h = (Val r, t) ->
  (r = None <-> existsb isFailedRelease t = false).
Proof.
  intros Hrun. unfold releasePass in Hrun.
  destruct (releaseLoop_lastErr _ _ _ _ _ Hrun) as [[Hn ->]|[Hf [e ->]]].
  - split; intros _; [exact Hn | reflexivity].
  - split; intros H; [discriminate | congruence].
Qed.



End ReleasePass.

(** ** The snapshot reader when a read fails *)

Section SnapshotFailure.

Variable w : World.
Variable sl : LeaseFixer.

Lemma downloads_cons_download (blob : string) (res : error + DownloadResponse)
    (t : list Event) :
  downloads (EvDownload blob res :: t) = blob :: downloads t.
Proof. reflexivity. Qed.




Lemma releases_app (t1 t2 : list Event) : releases (t1 ++ t2) = releases t1 ++ releases t2.
Proof. unfold releases. apply omap_app. Qed.

Lemma releases_none (t : list Event) : existsb isRelease t = false -> releases t = [].
Proof.
  induction t as [|e t IH]; [reflexivity|].
  cbn [existsb]. intros H. apply orb_false_iff in H as [He Ht].
  destruct e; try discriminate He; cbn; exact (IH Ht).
Qed.

End SnapshotFailure.

(** ** The staleness check *)

(** C1, evaluated on the code: a lease record with no checkpoint is not
    classified at all.  For every window and every current time the
    staleness condition dereferences the missing checkpoint and panics; a
    watchdog tick that reaches such a record panics, and so does the
    watchdog started from scratch once its idle counter passes the
    threshold. *)
Theorem isStale_without_checkpoint_panics :
  (forall window now embedded st tok,
     isStale window now
       {| EmbeddedLease := embedded; StorageCheckpoint := None; State := st; Token := tok |}
     = Panic nil_dereference) /\
  fst (run (tick Examples.w_no_checkpoint Examples.sl0 60) []) = Panic nil_dereference /\
  fst (run (watchdog Examples.w_no_checkpoint 61 Examples.sl0) []) = Panic nil_dereference.
Proof.
  split; [|split].
  - intros window now embedded st tok. reflexivity.
  - vm_compute. reflexivity.
  - vm_compute. reflexivity.
Qed.

(** C4: for a lease record with a checkpoint, the staleness condition
    returns (it does not panic) and is true exactly when the current time
    minus the checkpoint's enqueue time strictly exceeds the window.  A
    record enqueued now is not stale for a positive window; a record enqueued
    at now - window - eps with eps > 0 is stale.  The watchdog applies the
    condition with its clock reading and the 30 minute window: it announces
    the release of the record exactly when the record is stale. *)
Theorem isStale_iff_older_than_window (window : time.Duration) (now : time.Time)
    (lease : StorageLease) (cp : Checkpoint) :
  StorageCheckpoint lease = Some cp ->
  (exists b, isStale window now lease = Val b) /\
  (isStale window now lease = Val true <-> now - EnqueueTime cp > window) /\
  (isStale window now lease = Val false <-> now - EnqueueTime cp <= window) /\
  (EnqueueTime cp = now -> 0 < window -> isStale window now lease = Val false) /\
  (forall eps, 0 < eps -> EnqueueTime cp = now - window - eps ->
     isStale window now lease = Val true) /\
  (forall w sl lastErr h,
     In staleLog (snd (run (checkLease w sl lastErr (Some lease)) h)) <->
     Now w h - EnqueueTime cp > stalenessWindow).
Proof.
  intros Hcp.
  assert (Heval : forall win t,
             isStale win t lease = Val (Z.ltb (EnqueueTime cp) (t + - win))).
  { intros win t. unfold isStale. rewrite Hcp. reflexivity. }
  assert (Htrue : forall win t, isStale win t lease = Val true <-> t - EnqueueTime cp > win).
  { intros win t. rewrite Heval.
    destruct (Z.ltb_spec (EnqueueTime cp) (t + - win)); split; intros H'; try reflexivity;
      try discriminate H'; try (injection H' as H'; discriminate H'); lia. }
  assert (Hfalse : forall win t, isStale win t lease = Val false <-> t - EnqueueTime cp <= win).
  { intros win t. rewrite Heval.
    destruct (Z.ltb_spec (EnqueueTime cp) (t + - win)); split; intros H'; try reflexivity;
      try discriminate H'; try (injection H' as H'; discriminate H'); lia. }
  repeat split.
  - eexists. apply Heval.
  - apply Htrue.
  - apply Htrue.
  - apply Hfalse.
  - apply Hfalse.
  - intros Heq Hpos. apply Hfalse. lia.
  - intros eps Hpos Heq. apply Htrue. lia.
  - unfold checkLease. rewrite run_bind, run_ask.
    pose proof (Htrue stalenessWindow (Now w h)) as Ht.
    pose proof (Hfalse stalenessWindow (Now w h)) as Hf.
    destruct (isStale stalenessWindow (Now w h) lease) as [[|]|msg] eqn:Hs.
    + intros _. apply Ht. reflexivity.
    + unfold run, mbind, M_bind, bind, lift, mret, M_ret, ret. cbn.
      intros [H'|[]]. discriminate H'.
    + rewrite Heval in Hs. discriminate Hs.
  - intros Hgt.
    unfold checkLease. rewrite run_bind, run_ask.
    apply (Htrue stalenessWindow (Now w h)) in Hgt.
    unfold run, mbind, M_bind, bind, lift. rewrite Hgt.
    unfold ReleaseLease, GetPartitionID, mbind, M_bind, bind, lift, emit.
    destruct (EmbeddedLease lease) as [l|].
    + match goal with
      | |- context [ask ?f ?ev ?hh] => destruct (ask f ev hh) as [[[e|]|m] t]
      end; cbn; right; left; reflexivity.
    + cbn. right; left; reflexivity.
Qed.

Lemma isStale_iff_older_than_window_witness :
  isStale (30 * time.Minute) Examples.now0
    (Examples.lease_with "0" "token-0" (Examples.minutes 69)) = Val true /\
  isStale (30 * time.Minute) Examples.now0
    (Examples.lease_with "1" "token-1" (Examples.minutes 95)) = Val false.
Proof.
  split.
  - pose proof (isStale_iff_older_than_window (30 * time.Minute) Examples.now0
                  (Examples.lease_with "0" "token-0" (Examples.minutes 69)) _ eq_refl)
      as (_ & Htrue & _).
    apply Htrue. vm_compute. reflexivity.
  - pose proof (isStale_iff_older_than_window (30 * time.Minute) Examples.now0
                  (Examples.lease_with "1" "token-1" (Examples.minutes 95)) _ eq_refl)
      as (_ & _ & Hfalse & _).
    apply Hfalse. apply Z.leb_le. vm_compute. reflexivity.
Defined.

(** ** The snapshot reader *)

(** C10: when [GetLeases] succeeds it returns one lease record per partition
    ID reported by the scheduler, in the same order: the [i]-th download of
    the pass is that of the [i]-th partition's blob, the [i]-th result is the
    record decoded from its answer, and no entry of the result is nil. *)
Theorem GetLeases_one_record_per_partition (w : World) (sl : LeaseFixer) (h : History)
    (leases : list (option StorageLease)) (tr : list Event) :
  run (GetLeases w sl) h = (Val (inr leases), tr) ->
  length leases = length (GetPartitionIDs w h) /\
  (forall (i : nat) pid, GetPartitionIDs w h !! i = Some pid ->
     exists res lease,
       tr !! S i = Some (EvDownload (blobName sl pid) (inr res)) /\
       leaseFromResponse w res = inr lease /\
       leases !! i = Some (Some lease)) /\
  Forall (fun l => l <> None) leases.
Proof.
  rewrite run_GetLeases. cbn zeta.
  destruct (run (GetLeases_loop w sl 0 _ _) _) as [r t] eqn:Hrun.
  intros [= -> <-].
  destruct (GetLeases_loop_ok w sl _ [] _ _ _ Hrun) as (fetched & -> & Hlen & _ & Hall).
  cbn [app]. split; [exact Hlen|]. split.
  - intros i pid Hi. exact (Hall i pid Hi).
  - apply Forall_lookup. intros i l Hl.
    assert (Hlt : (i < length (GetPartitionIDs w h))%nat).
    { rewrite <- Hlen. apply lookup_lt_is_Some. eauto. }
    apply lookup_lt_is_Some in Hlt as [pid Hpid].
    destruct (Hall i pid Hpid) as (res & lease & _ & _ & Hi).
    rewrite Hi in Hl. injection Hl as <-. discriminate.
Qed.

Lemma GetLeases_one_record_per_partition_witness :
  exists leases tr,
    run (GetLeases Examples.w_idle Examples.sl0) [] = (Val (inr leases), tr) /\
    length leases = 2%nat /\
    Forall (fun l => l <> None) leases.
Proof.
  eexists. eexists. split; [reflexivity|].
  pose proof (GetLeases_one_record_per_partition Examples.w_idle Examples.sl0 [] _ _ eq_refl)
    as (Hlen & _ & Hall).
  split; [exact Hlen | exact Hall].
Defined.




(** ** Release failures and the idle counter *)

Section ReleaseFailures.

Variable w : World.
Variable sl : LeaseFixer.

(** The snapshot loop performs downloads and nothing else. *)
Lemma GetLeases_loop_only_downloads (pids : list string) :
  forall i acc h, forallb isDownload (snd (run (GetLeases_loop w sl i pids acc) h)) = true.
Proof.
  induction pids as [|pid rest IH]; intros i acc h; cbn [GetLeases_loop].
  - reflexivity.
  - rewrite run_bind, run_getLease.
    destruct (readOutcome w _) as [e|lease]; [reflexivity|].
    specialize (IH (S i) (<[i:=Some lease]> acc)
                  (h ++ [EvDownload (blobName sl pid) (Download w h (blobName sl pid))])).
    destruct (run (GetLeases_loop w sl (S i) rest _) _) as [r t2].
    cbn [snd] in *. cbn. exact IH.
Qed.

Lemma only_downloads_no_failed_release (t : list Event) :
  forallb isDownload t = true -> existsb isFailedRelease t = false.
Proof.
  induction t as [|e t IH]; [reflexivity|].
  cbn [forallb existsb]. intros H. apply andb_true_iff in H as [He Ht].
  rewrite (IH Ht). destruct e; try discriminate He. reflexivity.
Qed.

Lemma GetLeases_no_failed_release (h : History) :
  existsb isFailedRelease (snd (run (GetLeases w sl) h)) = false.
Proof.
  rewrite run_GetLeases. cbn zeta.
  pose proof (GetLeases_loop_only_downloads (GetPartitionIDs w h) 0
                (replicate (length (GetPartitionIDs w h)) None)
                (h ++ [EvGetPartitionIDs (GetPartitionIDs w h)])) as H.
  destruct (run (GetLeases_loop w sl 0 _ _) _) as [r t]. cbn [snd] in *.
  cbn [existsb isFailedRelease orb]. apply only_downloads_no_failed_release. exact H.
Qed.

(** A scan past the threshold that returns: the counter is either kept or
    reset, and it is reset exactly when the snapshot succeeded and no release
    of the pass failed. *)
Lemma scan_reset_iff (c : Z) (h : History) (r : Z) (tr : list Event) :
  idleTickThreshold < c ->
  run (scan w sl c) h = (Val r, tr) ->
  (r = c \/ r = 0) /\
  (r = 0 <->
   (exists leases ts, run (GetLeases w sl) (h ++ [idleLog]) = (Val (inr leases), ts)) /\
   existsb isFailedRelease tr = false).
Proof.
  intros Hc. rewrite (run_scan_above w sl c h Hc).
  assert (Hc0 : c <> 0) by (unfold idleTickThreshold in Hc; lia).
  pose proof (GetLeases_no_failed_release (h ++ [idleLog])) as Hg.
  destruct (run (GetLeases w sl) (h ++ [idleLog])) as [[[err|leases]|msg] t1]; cbn [snd] in Hg.
  - intros [= <- <-]. split; [left; reflexivity|].
    split; [intros H0; congruence | intros [(leases & ts & [= ]) _]].
  - destruct (run (releasePass w sl leases) _) as [[rp|msg] t2] eqn:Hp; [|intros [= ]].
    pose proof (releasePass_clean_iff w sl _ _ _ _ Hp) as Hclean.
    destruct rp as [e|]; intros [= <- <-].
    + split; [left; reflexivity|].
      split; [intros H0; congruence|].
      intros [_ Hnone]. cbn [existsb isFailedRelease orb] in Hnone.
      rewrite existsb_app, Hg in Hnone. cbn [orb] in Hnone.
      apply Hclean in Hnone. discriminate Hnone.
    + split; [right; reflexivity|].
      split; [|reflexivity]. intros _. split; [eauto|].
      cbn [existsb isFailedRelease orb]. rewrite existsb_app, Hg. cbn [orb].
      apply Hclean. reflexivity.
  - intros [= ].
Qed.

End ReleaseFailures.

(** C3 fails on the code: one stale lease whose release is refused with
    [TokenInvalidError] is the only failure of the pass, and the tick leaves
    the idle counter at 61 instead of resetting it. *)
Lemma token_invalid_prevents_reset_counterexample :
  fst (run (tick Examples.w_token_invalid Examples.sl0 60) []) = Val 61 /\
  fst (run (tick Examples.w_token_invalid Examples.sl0 60) []) <> Val 0 /\
  filter (fun e => isFailedRelease e = true)
    (snd (run (tick Examples.w_token_invalid Examples.sl0 60) []))
    = [EvReleaseLease "0" "token-0" (Some TokenInvalidError)] /\
  ~ In snapshotFailedLog (snd (run (tick Examples.w_token_invalid Examples.sl0 60) [])).
Proof.
  split; [|split; [|split]].
  - vm_compute. reflexivity.
  - vm_compute. intros H. discriminate H.
  - vm_compute. reflexivity.
  - vm_compute. intros H.
    repeat (destruct H as [H|H]; [discriminate H|]). exact H.
Qed.

(** C3 as amended: in a release pass every failed release counts, whatever
    its error.  If some release of the pass failed -- with
    [TokenInvalidError] as with [TransientIOError] -- the idle counter is not
    reset; it is reset to zero when the snapshot succeeded and no release of
    the pass failed. *)
Theorem any_release_failure_prevents_reset (w : World) (sl : LeaseFixer) (h : History)
    (c r : Z) (tr : list Event) :
  idleTickThreshold < c ->
  run (scan w sl c) h = (Val r, tr) ->
  (forall blob tok e, In (EvReleaseLease blob tok (Some e)) tr -> r = c /\ r <> 0) /\
  ((exists leases ts, run (GetLeases w sl) (h ++ [idleLog]) = (Val (inr leases), ts)) ->
   existsb isFailedRelease tr = false -> r = 0).
Proof.
  intros Hc Hrun.
  destruct (scan_reset_iff w sl c h r tr Hc Hrun) as [Hcases Hreset].
  split.
  - intros blob tok e Hin.
    assert (Hfailed : existsb isFailedRelease tr = true).
    { apply existsb_exists. exists (EvReleaseLease blob tok (Some e)). split; [exact Hin | reflexivity]. }
    assert (Hr : r <> 0).
    { intros H0. apply Hreset in H0 as [_ Hnone]. congruence. }
    split; [|exact Hr]. destruct Hcases as [Hk|H0]; [exact Hk | contradiction].
  - intros Hok Hnone. apply Hreset. split; assumption.
Qed.

Lemma any_release_failure_prevents_reset_witness :
  fst (run (scan Examples.w_token_invalid Examples.sl0 61) [EvBeingProcessed []]) = Val 61 /\
  fst (run (scan Examples.w_release_io Examples.sl0 61) [EvBeingProcessed []]) = Val 61.
Proof.
  assert (H61 : idleTickThreshold < 61) by reflexivity.
  split.
  - destruct (run (scan Examples.w_token_invalid Examples.sl0 61) [EvBeingProcessed []])
      as [r tr] eqn:Hrun.
    assert (Hval := Hrun). vm_compute in Hval. injection Hval as <- <-.
    destruct (any_release_failure_prevents_reset Examples.w_token_invalid Examples.sl0
                [EvBeingProcessed []] 61 61 _ H61 Hrun) as [Hfail _].
    destruct (Hfail "0" "token-0" TokenInvalidError) as [Hkept _].
    + do 6 right. left. reflexivity.
    + cbn [fst]. exact (f_equal Val Hkept).
  - destruct (run (scan Examples.w_release_io Examples.sl0 61) [EvBeingProcessed []])
      as [r tr] eqn:Hrun.
    assert (Hval := Hrun). vm_compute in Hval. injection Hval as <- <-.
    destruct (any_release_failure_prevents_reset Examples.w_release_io Examples.sl0
                [EvBeingProcessed []] 61 61 _ H61 Hrun) as [Hfail _].
    destruct (Hfail "0" "token-0" TransientIOError) as [Hkept _].
    + do 6 right. left. reflexivity.
    + cbn [fst]. exact (f_equal Val Hkept).
Defined.

(** ** The watchdog loop *)

Section Loop.

Variable w : World.
Variable sl : LeaseFixer.

Lemma run_watchdogLoop_done (fuel : nat) (c : Z) (h : History) :
  watcherCtxDone w h = true ->
  run (watchdogLoop w (S fuel) sl c) h = (Val Returned, []).
Proof.
  intros Hdone. cbn [watchdogLoop]. unfold run at 1. rewrite Hdone. reflexivity.
Qed.

Lemma run_watchdogLoop_step (fuel : nat) (c : Z) (h : History) :
  watcherCtxDone w h = false ->
  run (watchdogLoop w (S fuel) sl c) h =
  match run (tick w sl c) h with
  | (Val c', t1) =>
      match run (watchdogLoop w fuel sl c') (h ++ t1 ++ [EvSleep pollInterval]) with
      | (r, t2) => (r, t1 ++ EvSleep pollInterval :: t2)
      end
  | (Panic msg, t1) => (Panic msg, t1)
  end.
Proof.
  intros Hlive. cbn [watchdogLoop]. unfold run at 1. rewrite Hlive.
  rewrite run_bind.
  destruct (run (tick w sl c) h) as [[c'|msg] t1]; [|reflexivity].
  rewrite run_bind, run_emit. rewrite <- app_assoc.
  destruct (run (watchdogLoop w fuel sl c') (h ++ t1 ++ [EvSleep pollInterval])) as [r t2].
  reflexivity.
Qed.

(** A tick always begins with the activity observation. *)
Lemma tick_trace_head (c : Z) (h : History) :
  exists t, snd (run (tick w sl c) h) = EvBeingProcessed (PartitionIDsBeingProcessed w h) :: t.
Proof.
  rewrite run_tick, run_observe.
  destruct (run (scan w sl _) _) as [r t2]. exists t2. reflexivity.
Qed.

(** A tick whose observed counter stays at or below the threshold touches
    neither the scheduler's partition list nor the store. *)
Lemma run_tick_quiet (c : Z) (h : History) :
  0 <= c -> c < idleTickThreshold ->
  exists c',
    run (tick w sl c) h = (Val c', [EvBeingProcessed (PartitionIDsBeingProcessed w h)]) /\
    0 <= c' <= c + 1.
Proof.
  intros H0 Hc. unfold idleTickThreshold in Hc.
  rewrite run_tick, run_observe.
  destruct (Nat.eqb _ 0).
  - rewrite wrap_int_succ by (unfold min_int, max_int; lia).
    rewrite run_scan_below by (unfold idleTickThreshold; lia).
    exists (c + 1). split; [reflexivity | lia].
  - rewrite run_scan_below by (unfold idleTickThreshold; lia).
    exists 0. split; [reflexivity | lia].
Qed.

(** Hysteresis: from a counter [c], the next [fuel] iterations with
    [c + fuel <= idleTickThreshold] make no store call, whatever the world
    answers. *)
Lemma watchdogLoop_quiet (fuel : nat) :
  forall c h,
    0 <= c -> c + Z.of_nat fuel <= idleTickThreshold ->
    existsb isStoreCall (snd (run (watchdogLoop w fuel sl c) h)) = false.
Proof.
  induction fuel as [|fuel IH]; intros c h H0 Hc.
  - reflexivity.
  - destruct (watcherCtxDone w h) eqn:Hdone.
    + rewrite run_watchdogLoop_done by exact Hdone. reflexivity.
    + rewrite run_watchdogLoop_step by exact Hdone.
      destruct (run_tick_quiet c h H0) as (c' & -> & Hc'); [lia|].
      specialize (IH c' (h ++ [EvBeingProcessed (PartitionIDsBeingProcessed w h)] ++ [EvSleep pollInterval])).
      destruct (run (watchdogLoop w fuel sl c') _) as [r t2]. cbn [snd] in *.
      cbn. apply IH; lia.
Qed.

End Loop.

(** ** The idle counter and the scan threshold *)

Lemma length_eqb_0 {A} (l : list A) : Nat.eqb (length l) 0 = true <-> l = [].
Proof. destruct l; cbn; split; congruence. Qed.

(** C6: on a watchdog tick, when the scheduler reports at least one
    partition being processed the idle counter becomes 0 from any prior
    value, and the tick ends there with counter 0; when it reports none, the
    counter (a Go int below its maximum) is incremented by exactly 1, and
    that is the counter the tick ends with while the threshold is not
    passed. *)
Theorem observe_resets_or_increments (w : World) (sl : LeaseFixer) (h : History) (c : Z) :
  (PartitionIDsBeingProcessed w h <> [] ->
   run (observe w c) h = (Val 0, [EvBeingProcessed (PartitionIDsBeingProcessed w h)]) /\
   run (tick w sl c) h = (Val 0, [EvBeingProcessed (PartitionIDsBeingProcessed w h)])) /\
  (PartitionIDsBeingProcessed w h = [] ->
   min_int <= c < max_int ->
   run (observe w c) h = (Val (c + 1), [EvBeingProcessed []]) /\
   (c + 1 <= idleTickThreshold ->
    run (tick w sl c) h = (Val (c + 1), [EvBeingProcessed []]))).
Proof.
  split.
  - intros Hactive.
    assert (Hobs : run (observe w c) h
                   = (Val 0, [EvBeingProcessed (PartitionIDsBeingProcessed w h)])).
    { rewrite run_observe.
      destruct (Nat.eqb (length (PartitionIDsBeingProcessed w h)) 0) eqn:Hlen; [|reflexivity].
      apply length_eqb_0 in Hlen. contradiction. }
    split; [exact Hobs|].
    rewrite run_tick, Hobs, run_scan_below by (unfold idleTickThreshold; lia).
    reflexivity.
  - intros Hidle Hrange.
    assert (Hobs : run (observe w c) h = (Val (c + 1), [EvBeingProcessed []])).
    { rewrite run_observe, Hidle. cbn [length Nat.eqb].
      rewrite wrap_int_succ by (unfold min_int, max_int in *; lia). reflexivity. }
    split; [exact Hobs|].
    intros Hbelow. rewrite run_tick, Hobs, run_scan_below by exact Hbelow. reflexivity.
Qed.

Lemma observe_resets_or_increments_witness :
  run (tick Examples.w_active Examples.sl0 45) [] = (Val 0, [EvBeingProcessed ["1"]]) /\
  run (tick Examples.w_idle Examples.sl0 7) [] = (Val 8, [EvBeingProcessed []]).
Proof.
  split.
  - apply (observe_resets_or_increments Examples.w_active Examples.sl0 [] 45).
    intros H. discriminate H.
  - apply (observe_resets_or_increments Examples.w_idle Examples.sl0 [] 7).
    + reflexivity.
    + split; [intros H; discriminate H | reflexivity].
    + intros H. discriminate H.
Defined.

Section Threshold.

Variable w : World.
Variable sl : LeaseFixer.

Lemma GetLeases_trace_head (h : History) :
  exists t, snd (run (GetLeases w sl) h) = EvGetPartitionIDs (GetPartitionIDs w h) :: t.
Proof.
  rewrite run_GetLeases. cbn zeta.
  destruct (run (GetLeases_loop w sl 0 _ _) _) as [r t]. exists t. reflexivity.
Qed.

(** Past the threshold the scan always queries the partition list. *)
Lemma scan_above_trace_head (c : Z) (h : History) :
  idleTickThreshold < c ->
  exists t,
    snd (run (scan w sl c) h)
    = idleLog :: EvGetPartitionIDs (GetPartitionIDs w (h ++ [idleLog])) :: t.
Proof.
  intros Hc. rewrite (run_scan_above w sl c h Hc).
  destruct (GetLeases_trace_head (h ++ [idleLog])) as [t Ht].
  destruct (run (GetLeases w sl) (h ++ [idleLog])) as [[[err|leases]|msg] t1];
    cbn [snd] in Ht; subst t1.
  - eexists. reflexivity.
  - destruct (run (releasePass w sl leases) _) as [[[e|]|msg] t2]; eexists; reflexivity.
  - eexists. reflexivity.
Qed.

(** A tick scans exactly when the counter it has just observed exceeds the
    threshold. *)
Lemma tick_scan_iff (c c1 : Z) (h : History) (r : Res Z) (tr : list Event) :
  fst (run (observe w c) h) = Val c1 ->
  run (tick w sl c) h = (r, tr) ->
  (existsb isScan tr = true <-> idleTickThreshold < c1) /\
  (existsb isStoreCall tr = true <-> idleTickThreshold < c1).
Proof.
  intros Hobs. rewrite run_tick. rewrite run_observe in *. cbn [fst] in Hobs.
  injection Hobs as Hobs. rewrite Hobs.
  destruct (Z.lt_ge_cases idleTickThreshold c1) as [Habove|Hbelow].
  - destruct (scan_above_trace_head c1
                (h ++ [EvBeingProcessed (PartitionIDsBeingProcessed w h)]) Habove) as [t Ht].
    destruct (run (scan w sl c1) _) as [r2 t2]. cbn [snd] in Ht. subst t2.
    intros [= <- <-]. split; (split; [intros _; exact Habove | intros _; reflexivity]).
  - rewrite run_scan_below by exact Hbelow.
    intros [= <- <-]. split; (split; [intros H; discriminate H | intros H; lia]).
Qed.

(** A tick ends with counter 0 exactly when activity was observed, or the
    threshold was passed and the pass was clean: the snapshot succeeded and
    the release pass returned no error. *)
Lemma tick_reset_iff (c c1 : Z) (h : History) (r : Res Z) (tr : list Event) :
  0 <= c < max_int ->
  fst (run (observe w c) h) = Val c1 ->
  run (tick w sl c) h = (r, tr) ->
  let hs := (h ++ [EvBeingProcessed (PartitionIDsBeingProcessed w h)]) ++ [idleLog] in
  r = Val 0 <->
  (PartitionIDsBeingProcessed w h <> [] \/
   (idleTickThreshold < c1 /\
    exists leases ts tp,
      run (GetLeases w sl) hs = (Val (inr leases), ts) /\
      run (releasePass w sl leases) (hs ++ ts) = (Val None, tp))).
Proof.
  intros Hrange Hobs. rewrite run_tick. rewrite run_observe in *. cbn [fst] in Hobs.
  injection Hobs as Hobs. rewrite Hobs. cbn zeta.
  destruct (Nat.eqb (length (PartitionIDsBeingProcessed w h)) 0) eqn:Hlen.
  - (* idle *)
    rewrite wrap_int_succ in Hobs by (unfold min_int, max_int in *; lia).
    assert (Hc1 : c1 <> 0) by lia.
    apply length_eqb_0 in Hlen.
    destruct (Z.lt_ge_cases idleTickThreshold c1) as [Habove|Hbelow].
    + rewrite (run_scan_above w sl c1 _ Habove).
      destruct (run (GetLeases w sl) _) as [[[err|leases]|msg] t1].
      * intros [= <- <-]. split.
        -- intros [= H0]. contradiction.
        -- intros [Hact|(_ & leases & ts & tp & [= ] & _)]. contradiction.
      * destruct (run (releasePass w sl leases) _) as [[[e|]|msg] t2] eqn:Hp;
          intros [= <- <-]; split.
        -- intros [= H0]. contradiction.
        -- intros [Hact|(_ & leases' & ts & tp & [= <- <-] & Hp')]; [contradiction|].
           rewrite Hp in Hp'. discriminate Hp'.
        -- intros _. right. split; [exact Habove|]. exists leases, t1, t2. split; [reflexivity|exact Hp].
        -- intros _. reflexivity.
        -- intros H0. discriminate H0.
        -- intros [Hact|(_ & leases' & ts & tp & [= <- <-] & Hp')]; [contradiction|].
           rewrite Hp in Hp'. discriminate Hp'.
      * intros [= <- <-]. split.
        -- intros H0. discriminate H0.
        -- intros [Hact|(_ & leases & ts & tp & [= ] & _)]. contradiction.
    + rewrite run_scan_below by exact Hbelow.
      intros [= <- <-]. split.
      * intros [= H0]. contradiction.
      * intros [Hact|(Habove & _)]; [contradiction | lia].
  - (* active *)
    subst c1. rewrite run_scan_below by (unfold idleTickThreshold; lia).
    intros [= <- <-]. split; [|reflexivity].
    intros _. left. intros Hnil. rewrite Hnil in Hlen. discriminate Hlen.
Qed.

End Threshold.

(** C5: a tick performs a store scan exactly when the idle counter it has
    just updated strictly exceeds the threshold of 60.  The tick ends with
    the counter reset to zero precisely when activity was observed or the
    release pass completed with zero errors (the snapshot succeeded and the
    pass returned no error); and once the counter is back at zero the
    following 60 iterations perform no store call, whatever happens. *)
Theorem scan_only_past_threshold_and_rearm (w : World) (sl : LeaseFixer) (h : History)
    (c c1 : Z) (r : Res Z) (tr : list Event) :
  0 <= c < max_int ->
  fst (run (observe w c) h) = Val c1 ->
  run (tick w sl c) h = (r, tr) ->
  (existsb isScan tr = true <-> idleTickThreshold < c1) /\
  (existsb isStoreCall tr = true <-> idleTickThreshold < c1) /\
  (r = Val 0 <->
   (PartitionIDsBeingProcessed w h <> [] \/
    (idleTickThreshold < c1 /\
     exists leases ts tp,
       run (GetLeases w sl)
         ((h ++ [EvBeingProcessed (PartitionIDsBeingProcessed w h)]) ++ [idleLog])
       = (Val (inr leases), ts) /\
       run (releasePass w sl leases)
         (((h ++ [EvBeingProcessed (PartitionIDsBeingProcessed w h)]) ++ [idleLog]) ++ ts)
       = (Val None, tp)))) /\
  (forall (fuel : nat) w' h',
     (fuel <= 60)%nat ->
     existsb isStoreCall (snd (run (watchdogLoop w' fuel sl 0) h')) = false).
Proof.
  intros Hrange Hobs Hrun.
  destruct (tick_scan_iff w sl c c1 h r tr Hobs Hrun) as [Hscan Hstore].
  split; [exact Hscan|]. split; [exact Hstore|]. split.
  - exact (tick_reset_iff w sl c c1 h r tr Hrange Hobs Hrun).
  - intros fuel w' h' Hfuel. apply watchdogLoop_quiet; unfold idleTickThreshold; lia.
Qed.

Lemma scan_only_past_threshold_and_rearm_witness :
  existsb isScan (snd (run (tick Examples.w_idle Examples.sl0 60) [])) = true /\
  existsb isScan (snd (run (tick Examples.w_idle Examples.sl0 59) [])) = false /\
  fst (run (tick Examples.w_idle Examples.sl0 60) []) = Val 0.
Proof.
  assert (H60 : 0 <= 60 < max_int) by (split; [intros H; discriminate H | reflexivity]).
  assert (H59 : 0 <= 59 < max_int) by (split; [intros H; discriminate H | reflexivity]).
  destruct (run (tick Examples.w_idle Examples.sl0 60) []) as [r tr] eqn:Hrun.
  destruct (run (tick Examples.w_idle Examples.sl0 59) []) as [r' tr'] eqn:Hrun'.
  destruct (scan_only_past_threshold_and_rearm Examples.w_idle Examples.sl0 [] 60 61 r tr
              H60 eq_refl Hrun) as (Hscan & _ & Hreset & _).
  destruct (scan_only_past_threshold_and_rearm Examples.w_idle Examples.sl0 [] 59 60 r' tr'
              H59 eq_refl Hrun') as (Hscan' & _).
  cbn [fst snd]. split; [|split].
  - apply Hscan. reflexivity.
  - destruct (existsb isScan tr'); [|reflexivity].
    destruct Hscan' as [Habs _]. specialize (Habs eq_refl). discriminate Habs.
  - apply Hreset. right. split; [reflexivity|].
    eexists. eexists. eexists. split; reflexivity.
Defined.

(** ** Which partitions a scan reads *)

Section ScanTargets.

Variable w : World.
Variable sl : LeaseFixer.

(** The loop downloads the blobs of a prefix of the partition list, the whole
    list when it succeeds. *)
Lemma GetLeases_loop_downloads (pids : list string) :
  forall i acc h,
    exists k : nat,
      (k <= length pids)%nat /\
      downloads (snd (run (GetLeases_loop w sl i pids acc) h))
      = map (blobName sl) (take k pids) /\
      (forall leases, fst (run (GetLeases_loop w sl i pids acc) h) = Val (inr leases) ->
         k = length pids).
Proof.
  induction pids as [|pid rest IH]; intros i acc h; cbn [GetLeases_loop].
  - exists 0%nat. repeat split; reflexivity || lia.
  - rewrite run_bind, run_getLease.
    destruct (readOutcome w _) as [e|lease].
    + exists 1%nat. cbn [length]. split; [lia|]. split.
      * rewrite run_ret. reflexivity.
      * rewrite run_ret. intros leases H. discriminate H.
    + destruct (IH (S i) (<[i:=Some lease]> acc)
                  (h ++ [EvDownload (blobName sl pid) (Download w h (blobName sl pid))]))
        as (k & Hk & Hdl & Hall).
      destruct (run (GetLeases_loop w sl (S i) rest _) _) as [r t2]. cbn [fst snd] in *.
      exists (S k). cbn [length]. split; [lia|]. split.
      * cbn [app]. rewrite downloads_cons_download, Hdl. reflexivity.
      * intros leases Hr. f_equal. exact (Hall leases Hr).
Qed.



End ScanTargets.



(** ** Cancellation *)

Lemma watcherCtxDone_after_cancel (w : World) (h : History) :
  In EvCancelWatcher h -> watcherCtxDone w h = true.
Proof.
  intros Hin. unfold watcherCtxDone. apply orb_true_iff. right.
  apply existsb_exists. exists EvCancelWatcher. split; [exact Hin | reflexivity].
Qed.

(** C8 fails on the code: the worker context is cancelled right after the
    watchdog's first observation, so it is already done when the wait on the
    poll timer starts; the loop still sleeps the whole poll interval and
    returns only at the check of the next iteration. *)
Lemma cancellation_not_checked_during_sleep_counterexample :
  watcherCtxDone Examples.w_cancel_mid_tick [] = false /\
  watcherCtxDone Examples.w_cancel_mid_tick [EvBeingProcessed ["1"]] = true /\
  run (watchdog Examples.w_cancel_mid_tick 2 Examples.sl0) []
  = (Val Returned, [EvBeingProcessed ["1"]; EvSleep pollInterval]).
Proof. repeat split. Qed.

(** C8 as amended: cancellation is checked once per iteration, at the top of
    the loop before the tick's work, and not while waiting on the poll timer.
    An iteration that finds the context done returns without any further
    event, so without any store call; a context cancelled by [cancelWatcher]
    is found done.  An iteration that finds the context live runs its tick
    to the end and then sleeps the whole poll interval, also when the context
    is cancelled meanwhile; if the context is done by then, the loop returns
    at the next check: after cancellation it runs at most one in-flight pass
    and one poll interval. *)
Theorem watchdog_returns_at_next_check (w : World) (sl : LeaseFixer) (h : History)
    (c : Z) (fuel : nat) :
  (watcherCtxDone w h = true ->
   run (watchdogLoop w (S fuel) sl c) h = (Val Returned, [])) /\
  (In EvCancelWatcher h -> watcherCtxDone w h = true) /\
  (watcherCtxDone w h = false ->
   forall r t,
     run (tick w sl c) h = (r, t) ->
     watcherCtxDone w (h ++ t ++ [EvSleep pollInterval]) = true ->
     run (watchdogLoop w (S (S fuel)) sl c) h
     = match r with
       | Val _ => (Val Returned, t ++ [EvSleep pollInterval])
       | Panic msg => (Panic msg, t)
       end).
Proof.
  split; [|split].
  - intros Hdone. apply run_watchdogLoop_done. exact Hdone.
  - apply watcherCtxDone_after_cancel.
  - intros Hlive r t Htick Hdone.
    rewrite run_watchdogLoop_step by exact Hlive. rewrite Htick.
    destruct r as [c'|msg]; [|reflexivity].
    rewrite run_watchdogLoop_done by exact Hdone. reflexivity.
Qed.

Lemma watchdog_returns_at_next_check_witness :
  run (watchdogLoop Examples.w_cancel_mid_tick 3 Examples.sl0 0) []
  = (Val Returned, [EvBeingProcessed ["1"]] ++ [EvSleep pollInterval]) /\
  run (watchdogLoop Examples.w_idle 1 Examples.sl0 0) [EvCancelWatcher] = (Val Returned, []).
Proof.
  split.
  - destruct (watchdog_returns_at_next_check Examples.w_cancel_mid_tick Examples.sl0 [] 0 1%nat)
      as (_ & _ & Hstep).
    exact (Hstep eq_refl (Val 0) [EvBeingProcessed ["1"]] eq_refl eq_refl).
  - destruct (watchdog_returns_at_next_check Examples.w_idle Examples.sl0 [EvCancelWatcher] 0 0%nat)
      as (Hdone & Hcancel & _).
    apply Hdone. apply Hcancel. left. reflexivity.
Defined.

(** ** The event handler *)

(** C9: when the event callback reports failure, the handler logs the
    condition at error severity, then stops the input, then cancels the
    watchdog's context, then panics, in this order, and the watchdog's
    context is done from then on; when the callback succeeds the handler
    returns nil and does none of these. *)
Theorem handler_fatal_error_policy (w : World) (h : History) (e : EventData) :
  (processEvents w h e "" = false ->
   run (handler w e) h
   = (Panic onEventErrMsg,
      [EvProcessEvents e "" false; EvLog ErrorLevel onEventErrMsg; EvStop; EvCancelWatcher]) /\
   forall h',
     watcherCtxDone w
       ((h ++ [EvProcessEvents e "" false; EvLog ErrorLevel onEventErrMsg; EvStop;
               EvCancelWatcher]) ++ h') = true) /\
  (processEvents w h e "" = true ->
   run (handler w e) h = (Val None, [EvProcessEvents e "" true])).
Proof.
  split.
  - intros Hfail. split.
    + unfold handler. rewrite run_bind, run_ask, Hfail. reflexivity.
    + intros h'. apply watcherCtxDone_after_cancel.
      apply in_or_app. left. apply in_or_app. right.
      right. right. right. left. reflexivity.
  - intros Hok. unfold handler. rewrite run_bind, run_ask, Hok. reflexivity.
Qed.

Lemma handler_fatal_error_policy_witness :
  run (handler Examples.w_handler_fails Examples.ev0) []
  = (Panic onEventErrMsg,
     [EvProcessEvents Examples.ev0 "" false; EvLog ErrorLevel onEventErrMsg; EvStop;
      EvCancelWatcher]) /\
  run (handler Examples.w_idle Examples.ev0) [] = (Val None, [EvProcessEvents Examples.ev0 "" true]).
Proof.
  split.
  - apply (handler_fatal_error_policy Examples.w_handler_fails [] Examples.ev0). reflexivity.
  - apply (handler_fatal_error_policy Examples.w_idle [] Examples.ev0). reflexivity.
Defined.

(** ** The counter stays a small non-negative number *)


(** ** End-to-end scenarios *)

(** Threshold 60, window 30 minutes, no partition being processed for 61
    consecutive ticks, one stale and one fresh partition: exactly one release
    is issued, for the stale partition, on the 61st tick. *)
Example scenario_idle_61_ticks :
  releases (snd (run (watchdog Examples.w_idle 61 Examples.sl0) [])) = [("0", "token-0")] /\
  releases (snd (run (watchdog Examples.w_idle 60 Examples.sl0) [])) = [].
Proof. split; vm_compute; reflexivity. Qed.

(** With one partition being processed the watchdog never touches the
    store. *)
Example scenario_active :
  existsb isStoreCall (snd (run (watchdog Examples.w_active 200 Examples.sl0) [])) = false.
Proof. vm_compute. reflexivity. Qed.

(** After the handler has cancelled the watcher context, the watchdog
    returns at once without a store call. *)
Example scenario_handler_failure :
  forall tr,
    snd (run (handler Examples.w_handler_fails Examples.ev0) []) = tr ->
    run (watchdog Examples.w_handler_fails 10 Examples.sl0) tr = (Val Returned, []).
Proof. intros tr <-. reflexivity. Qed.

(** * Further properties of the code *)

(** ** lease.go *)

(** X1: [NewLeaseFixer] fails exactly when [url.Parse] rejects
    [https://<account>.blob.<suffix>], with the parser's error; the fixer it
    returns keeps the account and container names and has an empty blob path
    prefix, so the blob of a partition is named by the partition ID alone. *)
Theorem NewLeaseFixer_result (parse : string -> error + string)
    (account container suffix : string) :
  let url := String.append "https://" (String.append account (String.append ".blob." suffix)) in
  (forall err, NewLeaseFixer parse account container suffix = inl err <-> parse url = inl err) /\
  (forall sl, NewLeaseFixer parse account container suffix = inr sl ->
     accountName sl = account /\ containerName sl = container /\
     blobPathPrefix sl = "" /\ forall pid, blobName sl pid = pid).
Proof.
  cbn zeta. unfold NewLeaseFixer. split.
  - intros err. destruct (parse _) as [e|u]; split; intros H; congruence.
  - intros sl. destruct (parse _) as [e|u]; intros [= <-]. repeat split.
Qed.

Lemma forallb_isDownload_length (t : list Event) :
  forallb isDownload t = true -> length (downloads t) = length t.
Proof.
  induction t as [|e t IH]; [reflexivity|].
  cbn [forallb]. intros H. apply andb_true_iff in H as [He Ht].
  destruct e; try discriminate He. rewrite downloads_cons_download. cbn. rewrite (IH Ht). reflexivity.
Qed.

(** The shape of every run of [GetLeases]. *)
Lemma GetLeases_only_reads_aux (w : World) (sl : LeaseFixer) (h : History) :
  exists r t,
    run (GetLeases w sl) h = (Val r, EvGetPartitionIDs (GetPartitionIDs w h) :: t) /\
    forallb isDownload t = true.
Proof.
  rewrite run_GetLeases. cbn zeta.
  destruct (GetLeases_loop_returns w sl (GetPartitionIDs w h) 0
              (replicate (length (GetPartitionIDs w h)) None)
              (h ++ [EvGetPartitionIDs (GetPartitionIDs w h)])) as [r Hr].
  pose proof (GetLeases_loop_only_downloads w sl (GetPartitionIDs w h) 0
                (replicate (length (GetPartitionIDs w h)) None)
                (h ++ [EvGetPartitionIDs (GetPartitionIDs w h)])) as Hd.
  destruct (run (GetLeases_loop w sl 0 _ _) _) as [r' t]. cbn [fst snd] in *. subst r'.
  exists r, t. split; [reflexivity | exact Hd].
Qed.

(** X2: [GetLeases] only reads: for every behaviour of the scheduler and the
    store it returns (it never panics), and what it does is the query for the
    partition IDs followed by downloads only, at most one per partition ID;
    it never releases a lease. *)
Theorem GetLeases_only_reads (w : World) (sl : LeaseFixer) (h : History) :
  exists r t,
    run (GetLeases w sl) h = (Val r, EvGetPartitionIDs (GetPartitionIDs w h) :: t) /\
    forallb isDownload t = true /\
    (length t <= length (GetPartitionIDs w h))%nat /\
    releases (EvGetPartitionIDs (GetPartitionIDs w h) :: t) = [].
Proof.
  rewrite run_GetLeases. cbn zeta.
  set (pids := GetPartitionIDs w h).
  set (h1 := h ++ [EvGetPartitionIDs pids]).
  destruct (GetLeases_loop_returns w sl pids 0 (replicate (length pids) None) h1) as [r Hr].
  pose proof (GetLeases_loop_only_downloads w sl pids 0 (replicate (length pids) None) h1) as Hd.
  destruct (GetLeases_loop_downloads w sl pids 0 (replicate (length pids) None) h1)
    as (k & Hk & Hdl & _).
  destruct (run (GetLeases_loop w sl 0 pids _) h1) as [r' t]. cbn [fst snd] in *. subst r'.
  exists r, t. split; [reflexivity|]. split; [exact Hd|]. split.
  - rewrite <- (forallb_isDownload_length t Hd), Hdl, length_map, length_take. lia.
  - change (releases ([EvGetPartitionIDs pids] ++ t) = []).
    rewrite releases_app. cbn. apply releases_none.
    clear -Hd. induction t as [|e t IH]; [reflexivity|].
    cbn [forallb] in Hd. apply andb_true_iff in Hd as [He Ht].
    cbn [existsb]. rewrite (IH Ht). destruct e; try discriminate He. reflexivity.
Qed.

(** The entries of a successful snapshot, by index. *)
Lemma GetLeases_lookup (w : World) (sl : LeaseFixer) (h : History)
    (leases : list (option StorageLease)) (tr : list Event) :
  run (GetLeases w sl) h = (Val (inr leases), tr) ->
  length leases = length (GetPartitionIDs w h) /\
  (forall (i : nat) pid, GetPartitionIDs w h !! i = Some pid ->
     exists res lease,
       tr !! S i = Some (EvDownload (blobName sl pid) (inr res)) /\
       leaseFromResponse w res = inr lease /\
       leases !! i = Some (Some lease)).
Proof.
  rewrite run_GetLeases. cbn zeta.
  destruct (run (GetLeases_loop w sl 0 _ _) _) as [r t] eqn:Hrun.
  intros [= -> <-].
  destruct (GetLeases_loop_ok w sl _ [] _ _ _ Hrun) as (fetched & -> & Hlen & _ & Hall).
  cbn [app]. split; [exact Hlen|].
  intros i pid Hi. exact (Hall i pid Hi).
Qed.

(** X3: Every record of a successful snapshot carries the lease state of the
    response it was downloaded with, not a state stored in the payload; its
    token, checkpoint and embedded lease are the decoded ones. *)
Theorem GetLeases_state_from_response (w : World) (sl : LeaseFixer) (h : History)
    (leases : list (option StorageLease)) (tr : list Event) (i : nat) (lease : StorageLease) :
  run (GetLeases w sl) h = (Val (inr leases), tr) ->
  leases !! i = Some (Some lease) ->
  exists pid res b decoded,
    GetPartitionIDs w h !! i = Some pid /\
    tr !! S i = Some (EvDownload (blobName sl pid) (inr res)) /\
    Body res = inr b /\
    Unmarshal w b = inr decoded /\
    State lease = LeaseState res /\
    Token lease = Token decoded /\
    StorageCheckpoint lease = StorageCheckpoint decoded /\
    EmbeddedLease lease = EmbeddedLease decoded.
Proof.
  intros Hrun Hi.
  destruct (GetLeases_lookup w sl h leases tr Hrun) as (Hlen & Hall).
  assert (Hlt : (i < length (GetPartitionIDs w h))%nat).
  { rewrite <- Hlen. apply lookup_lt_is_Some. eauto. }
  apply lookup_lt_is_Some in Hlt as [pid Hpid].
  destruct (Hall i pid Hpid) as (res & lease' & Htr & Hdec & Hi').
  rewrite Hi in Hi'. injection Hi' as <-.
  unfold leaseFromResponse in Hdec.
  destruct (Body res) as [e|b] eqn:Hb; [discriminate Hdec|].
  destruct (Unmarshal w b) as [e|decoded] eqn:Hu; [discriminate Hdec|].
  injection Hdec as <-.
  exists pid, res, b, decoded. repeat split; assumption.
Qed.

Lemma GetLeases_state_from_response_witness :
  exists lease,
    snd (run (GetLeases Examples.w_idle Examples.sl0) []) !! 1%nat
      = Some (EvDownload "0" (Examples.payload "stale-0")) /\
    State lease = LeaseStateLeased /\ Token lease = "token-0".
Proof.
  destruct (run (GetLeases Examples.w_idle Examples.sl0) []) as [r tr] eqn:Hrun.
  assert (Hval := Hrun). vm_compute in Hval. injection Hval as <- <-.
  destruct (GetLeases_state_from_response Examples.w_idle Examples.sl0 [] _ _ 0%nat _
              Hrun eq_refl)
    as (pid & res & b & decoded & Hpid & Htr & Hb & Hu & Hstate & Htok & _).
  injection Hpid as <-. injection Htr as <-.
  injection Hb as <-. injection Hu as <-.
  eexists. split; [reflexivity|]. split; [exact Hstate | exact Htok].
Defined.

(** X4: [ReleaseLease] makes exactly one store call: it releases the blob named
    by the prefix and the record's partition ID with the token read in the
    snapshot, and returns the store's answer unchanged.  On a record whose
    embedded lease is nil it panics before reaching the store. *)
Theorem ReleaseLease_one_store_call (w : World) (sl : LeaseFixer) (lease : StorageLease)
    (h : History) :
  (EmbeddedLease lease = None ->
   run (ReleaseLease w sl lease) h = (Panic nil_dereference, [])) /\
  (forall el, EmbeddedLease lease = Some el ->
     run (ReleaseLease w sl lease) h
     = (Val (BlobReleaseLease w h (blobName sl (PartitionID el)) (Token lease)),
        [EvReleaseLease (blobName sl (PartitionID el)) (Token lease)
           (BlobReleaseLease w h (blobName sl (PartitionID el)) (Token lease))])).
Proof.
  unfold ReleaseLease, GetPartitionID, blobName. split.
  - intros ->. reflexivity.
  - intros el ->. rewrite run_bind. unfold lift at 1, run at 1.
    rewrite app_nil_r. rewrite run_ask. reflexivity.
Qed.

Lemma ReleaseLease_one_store_call_witness :
  run (ReleaseLease Examples.w_token_invalid Examples.sl0
         (Examples.lease_with "0" "token-0" (Examples.minutes 69))) []
  = (Val (Some TokenInvalidError), [EvReleaseLease "0" "token-0" (Some TokenInvalidError)]) /\
  run (ReleaseLease Examples.w_idle Examples.sl0
         {| EmbeddedLease := None; StorageCheckpoint := None;
            State := LeaseStateNone; Token := "t" |}) []
  = (Panic nil_dereference, []).
Proof.
  split.
  - exact (proj2 (ReleaseLease_one_store_call Examples.w_token_invalid Examples.sl0
                    (Examples.lease_with "0" "token-0" (Examples.minutes 69)) []) _ eq_refl).
  - exact (proj1 (ReleaseLease_one_store_call Examples.w_idle Examples.sl0
                    {| EmbeddedLease := None; StorageCheckpoint := None;
                       State := LeaseStateNone; Token := "t" |} []) eq_refl).
Defined.

(** ** eph.go: more on the release pass *)

Section ReleasePassMore.

Variable w : World.
Variable sl : LeaseFixer.

Lemma clockReads_app (t1 t2 : list Event) : clockReads (t1 ++ t2) = clockReads t1 ++ clockReads t2.
Proof. unfold clockReads. apply omap_app. Qed.

(** A check that returns has read the clock once. *)
Lemma checkLease_reads_clock_once (lastErr : option error) (lease : option StorageLease)
    (h : History) (r : option error) (t : list Event) :
  run (checkLease w sl lastErr lease) h = (Val r, t) ->
  clockReads t = [Now w h].
Proof.
  unfold checkLease. rewrite run_bind, run_ask.
  destruct lease as [lease|]; [|intros [= ]].
  unfold isStale, ReleaseLease, GetPartitionID.
  destruct (StorageCheckpoint lease) as [cp|]; [|intros [= ]].
  destruct (time.Before _ _).
  - destruct (EmbeddedLease lease) as [l|]; [|intros [= ]].
    unfold run, mbind, M_bind, bind, lift, emit, ask, mret, M_ret, ret.
    destruct (BlobReleaseLease w _ _ _) as [e|]; intros [= <- <-]; reflexivity.
  - intros [= <- <-]. reflexivity.
Qed.

(** What one check releases: nothing, or the entry's own blob and token. *)
Lemma checkLease_releases (lastErr : option error) (lease : option StorageLease) (h : History) :
  releases (snd (run (checkLease w sl lastErr lease) h)) = [] \/
  exists target,
    releaseTarget sl lease = Some target /\
    releases (snd (run (checkLease w sl lastErr lease) h)) = [target].
Proof.
  unfold checkLease. rewrite run_bind, run_ask.
  destruct lease as [lease|]; [|left; reflexivity].
  unfold isStale, ReleaseLease, GetPartitionID, releaseTarget.
  destruct (StorageCheckpoint lease) as [cp|]; [|left; reflexivity].
  destruct (time.Before _ _); [|left; reflexivity].
  destruct (EmbeddedLease lease) as [l|]; [|left; reflexivity].
  right. eexists. split; [reflexivity|].
  unfold run, mbind, M_bind, bind, lift, emit, ask, mret, M_ret, ret, blobName.
  destruct (BlobReleaseLease w _ _ _) as [e|]; reflexivity.
Qed.

Lemma releaseLoop_releases_sublist (leases : list (option StorageLease)) :
  forall lastErr h,
    sublist (releases (snd (run (releaseLoop w sl lastErr leases) h)))
      (omap (releaseTarget sl) leases).
Proof.
  induction leases as [|lease rest IH]; intros lastErr h; cbn [releaseLoop].
  - constructor.
  - rewrite run_bind.
    pose proof (checkLease_releases lastErr lease h) as H1.
    destruct (run (checkLease w sl lastErr lease) h) as [[r1|msg] t1]; cbn [snd] in *.
    + specialize (IH r1 (h ++ t1)).
      destruct (run (releaseLoop w sl r1 rest) (h ++ t1)) as [r2 t2]; cbn [snd] in *.
      rewrite releases_app. cbn [omap list_omap].
      destruct H1 as [->|(target & -> & ->)]; cbn [app].
      * destruct (releaseTarget sl lease); [apply sublist_cons|]; exact IH.
      * apply sublist_skip. exact IH.
    + cbn [omap list_omap].
      destruct H1 as [->|(target & -> & ->)].
      * apply sublist_nil_l.
      * apply sublist_skip. apply sublist_nil_l.
Qed.

Lemma releaseLoop_reads_clock (leases : list (option StorageLease)) :
  forall lastErr h r t,
    run (releaseLoop w sl lastErr leases) h = (Val r, t) ->
    length (clockReads t) = length leases.
Proof.
  induction leases as [|lease rest IH]; intros lastErr h r t; cbn [releaseLoop].
  - rewrite run_ret. intros [= <- <-]. reflexivity.
  - rewrite run_bind.
    destruct (run (checkLease w sl lastErr lease) h) as [[r1|msg] t1] eqn:H1; [|intros [= ]].
    destruct (run (releaseLoop w sl r1 rest) (h ++ t1)) as [r2 t2] eqn:H2.
    intros [= -> <-].
    rewrite clockReads_app, length_app, (checkLease_reads_clock_once _ _ _ _ _ H1).
    cbn [length]. rewrite (IH _ _ _ _ H2). reflexivity.
Qed.

End ReleasePassMore.

Lemma omap_length_le {A B} (f : A -> option B) (l : list A) :
  (length (omap f l) <= length l)%nat.
Proof.
  induction l as [|x l IH]; [reflexivity|].
  cbn [omap list_omap]. destruct (f x); cbn [length]; lia.
Qed.

(** X5: The release pass only ever releases leases of the snapshot it was given:
    the (blob, token) pairs it releases are, in order, a sublist of those of
    the snapshot's entries, so no entry is released twice and nothing outside
    the snapshot is released -- for every behaviour of the store and the
    clock, also when the pass panics. *)
Theorem releasePass_releases_from_snapshot (w : World) (sl : LeaseFixer)
    (leases : list (option StorageLease)) (h : History) :
  sublist (releases (snd (run (releasePass w sl leases) h))) (omap (releaseTarget sl) leases) /\
  (length (releases (snd (run (releasePass w sl leases) h))) <= length leases)%nat.
Proof.
  pose proof (releaseLoop_releases_sublist w sl leases None h) as Hsub.
  split; [exact Hsub|].
  apply sublist_length in Hsub. unfold releasePass.
  etransitivity; [exact Hsub|]. apply omap_length_le.
Qed.

(** X6: A release pass that returns has evaluated every entry of the snapshot:
    the clock was read exactly once per entry, whether or not releases
    failed on the way -- a failed release does not end the pass. *)
Theorem releasePass_evaluates_every_lease (w : World) (sl : LeaseFixer)
    (leases : list (option StorageLease)) (h : History) (r : option error) (tr : list Event) :
  run (releasePass w sl leases) h = (Val r, tr) ->
  length (clockReads tr) = length leases.
Proof. unfold releasePass. apply releaseLoop_reads_clock. Qed.

Lemma releasePass_evaluates_every_lease_witness :
  exists tr,
    run (releasePass SetupExamples.w_first_release_fails Examples.sl0 SetupExamples.stale_pair) []
      = (Val (Some TransientIOError), tr) /\
    releases tr = [("0", "token-0"); ("1", "token-1")] /\
    length (clockReads tr) = 2%nat.
Proof.
  destruct (run (releasePass SetupExamples.w_first_release_fails Examples.sl0
                   SetupExamples.stale_pair) []) as [r tr] eqn:Hrun.
  assert (Hval := Hrun). vm_compute in Hval. injection Hval as <- <-.
  eexists. split; [reflexivity|]. split; [reflexivity|].
  exact (releasePass_evaluates_every_lease _ _ _ _ _ _ Hrun).
Defined.

Section ReleasePassResult.

Variable w : World.
Variable sl : LeaseFixer.

(** One check either keeps [lastErr] without a failed release, or ends with
    a failed release and its log line and returns that release's error. *)
Lemma checkLease_last_error (lastErr : option error) (lease : option StorageLease)
    (h : History) (r : option error) (t : list Event) :
  run (checkLease w sl lastErr lease) h = (Val r, t) ->
  (existsb isFailedRelease t = false /\ r = lastErr) \/
  (exists ta blob tok e,
     t = ta ++ [EvReleaseLease blob tok (Some e); releaseFailedLog] /\ r = Some e).
Proof.
  unfold checkLease. rewrite run_bind, run_ask.
  destruct lease as [lease|]; [|intros [= ]].
  unfold isStale, ReleaseLease, GetPartitionID.
  destruct (StorageCheckpoint lease) as [cp|]; [|intros [= ]].
  destruct (time.Before _ _).
  - destruct (EmbeddedLease lease) as [l|]; [|intros [= ]].
    unfold run, mbind, M_bind, bind, lift, emit, ask, mret, M_ret, ret.
    destruct (BlobReleaseLease w _ _ _) as [e|]; intros [= <- <-].
    + right. exists [EvNow (Now w h); staleLog]. do 3 eexists. split; reflexivity.
    + left. split; reflexivity.
  - intros [= <- <-]. left. split; reflexivity.
Qed.

Lemma releaseLoop_last_error (leases : list (option StorageLease)) :
  forall lastErr h e t,
    run (releaseLoop w sl lastErr leases) h = (Val (Some e), t) ->
    (existsb isFailedRelease t = false /\ lastErr = Some e) \/
    (exists t1 t2 blob tok,
       t = t1 ++ EvReleaseLease blob tok (Some e) :: t2 /\
       existsb isFailedRelease t2 = false).
Proof.
  induction leases as [|lease rest IH]; intros lastErr h e t; cbn [releaseLoop].
  - rewrite run_ret. intros [= <- <-]. left. split; reflexivity.
  - rewrite run_bind.
    destruct (run (checkLease w sl lastErr lease) h) as [[r1|msg] tc] eqn:H1; [|intros [= ]].
    destruct (run (releaseLoop w sl r1 rest) (h ++ tc)) as [r2 t2] eqn:H2.
    intros [= -> <-].
    destruct (IH _ _ _ _ H2) as [[Hnone ->]|(ta & tb & blob & tok & -> & Hnone)].
    + destruct (checkLease_last_error _ _ _ _ _ H1)
        as [[Hc ->]|(ta & blob & tok & e' & -> & [= ->])].
      * left. split; [|reflexivity]. rewrite existsb_app, Hc, Hnone. reflexivity.
      * right. exists ta, (releaseFailedLog :: t2), blob, tok. split.
        -- rewrite <- app_assoc. reflexivity.
        -- cbn [existsb isFailedRelease releaseFailedLog orb]. exact Hnone.
    + right. exists (tc ++ ta), tb, blob, tok. split; [|exact Hnone].
      rewrite <- app_assoc. reflexivity.
Qed.

(** With a frozen clock and complete entries the loop returns and releases
    exactly the stale entries, in order. *)
Lemma releaseLoop_frozen_clock (now : time.Time) (leases : list (option StorageLease)) :
  (forall h', Now w h' = now) ->
  forallb complete leases = true ->
  forall lastErr h,
    exists r tr,
      run (releaseLoop w sl lastErr leases) h = (Val r, tr) /\
      releases tr = omap (staleTarget sl now) leases /\
      clockReads tr = replicate (length leases) now.
Proof.
  intros Hclock.
  induction leases as [|lease rest IH]; intros Hcomplete lastErr h; cbn [releaseLoop].
  - exists lastErr, []. repeat split.
  - cbn [forallb] in Hcomplete. apply andb_true_iff in Hcomplete as [Hl Hrest].
    destruct lease as [lease|]; [|discriminate Hl]. cbn [complete] in Hl.
    destruct (StorageCheckpoint lease) as [cp|] eqn:Hcp; [|discriminate Hl].
    destruct (EmbeddedLease lease) as [el|] eqn:Hel; [|discriminate Hl].
    rewrite run_bind, (run_checkLease w sl lastErr lease cp el h Hcp Hel). cbn zeta.
    rewrite Hclock.
    assert (Htarget : staleTarget sl now (Some lease)
                      = if time.Before (EnqueueTime cp) (time.Add now (- stalenessWindow))
                        then Some (blobName sl (PartitionID el), Token lease) else None).
    { unfold staleTarget, isStale, releaseTarget. rewrite Hcp, Hel.
      destruct (time.Before _ _); reflexivity. }
    cbn [omap list_omap]. rewrite Htarget. cbn [length replicate].
    destruct (time.Before (EnqueueTime cp) (time.Add now (- stalenessWindow))).
    + destruct (BlobReleaseLease w _ _ _) as [e|].
      * destruct (IH Hrest (Some e) (h ++ [EvNow now; staleLog;
                    EvReleaseLease (blobName sl (PartitionID el)) (Token lease) (Some e);
                    releaseFailedLog])) as (r & tr & -> & Hrel & Hclk).
        exists r. eexists. split; [reflexivity|].
        split; [|rewrite clockReads_app, Hclk; reflexivity].
        rewrite releases_app, Hrel. reflexivity.
      * destruct (IH Hrest lastErr (h ++ [EvNow now; staleLog;
                    EvReleaseLease (blobName sl (PartitionID el)) (Token lease) None]))
          as (r & tr & -> & Hrel & Hclk).
        exists r. eexists. split; [reflexivity|].
        split; [|rewrite clockReads_app, Hclk; reflexivity].
        rewrite releases_app, Hrel. reflexivity.
    + destruct (IH Hrest lastErr (h ++ [EvNow now])) as (r & tr & -> & Hrel & Hclk).
      exists r. eexists. split; [reflexivity|].
      split; [|rewrite clockReads_app, Hclk; reflexivity].
      rewrite releases_app, Hrel. reflexivity.
Qed.

End ReleasePassResult.

(** X7: The error a release pass returns is the error of the last release that
    failed in it: a later successful release does not clear it, a later
    failed one replaces it. *)
Theorem releasePass_returns_last_failure (w : World) (sl : LeaseFixer)
    (leases : list (option StorageLease)) (h : History) (e : error) (tr : list Event) :
  run (releasePass w sl leases) h = (Val (Some e), tr) ->
  exists t1 t2 blob tok,
    tr = t1 ++ EvReleaseLease blob tok (Some e) :: t2 /\
    existsb isFailedRelease t2 = false.
Proof.
  unfold releasePass. intros Hrun.
  destruct (releaseLoop_last_error w sl _ _ _ _ _ Hrun) as [[_ Habs]|Hlast].
  - discriminate Habs.
  - exact Hlast.
Qed.

Lemma releasePass_returns_last_failure_witness :
  exists t1 t2,
    snd (run (releasePass SetupExamples.w_first_release_fails Examples.sl0
                SetupExamples.stale_pair) [])
    = t1 ++ EvReleaseLease "0" "token-0" (Some TransientIOError) :: t2 /\
    existsb isFailedRelease t2 = false.
Proof.
  destruct (run (releasePass SetupExamples.w_first_release_fails Examples.sl0
                   SetupExamples.stale_pair) []) as [r tr] eqn:Hrun.
  assert (Hval := Hrun). vm_compute in Hval. injection Hval as <- <-.
  destruct (releasePass_returns_last_failure _ _ _ _ _ _ Hrun)
    as (t1 & t2 & blob & tok & Htr & Hnone).
  cbn [snd].
  exists [EvNow Examples.now0; staleLog].
  exists [releaseFailedLog; EvNow Examples.now0; staleLog; EvReleaseLease "1" "token-1" None].
  split; reflexivity.
Defined.

(** X8: While the clock stands still, a release pass over records that all have
    a checkpoint and an embedded lease returns (it does not panic), reads the
    clock once per record, and issues releases for exactly the records whose
    checkpoint is older than 30 minutes, in snapshot order, each with its own
    blob and token -- whether or not the individual releases succeed. *)
Theorem releasePass_releases_exactly_the_stale (w : World) (sl : LeaseFixer)
    (now : time.Time) (leases : list (option StorageLease)) (h : History) :
  (forall h', Now w h' = now) ->
  forallb complete leases = true ->
  exists r tr,
    run (releasePass w sl leases) h = (Val r, tr) /\
    releases tr = omap (staleTarget sl now) leases /\
    clockReads tr = replicate (length leases) now.
Proof.
  intros Hclock Hcomplete. unfold releasePass.
  exact (releaseLoop_frozen_clock w sl now leases Hclock Hcomplete None h).
Qed.

Lemma releasePass_releases_exactly_the_stale_witness :
  exists r tr,
    run (releasePass Examples.w_idle Examples.sl0
           [Some (Examples.lease_with "0" "token-0" (Examples.minutes 69));
            Some (Examples.lease_with "1" "token-1" (Examples.minutes 95))]) []
    = (Val r, tr) /\
    releases tr = [("0", "token-0")].
Proof.
  destruct (releasePass_releases_exactly_the_stale Examples.w_idle Examples.sl0 Examples.now0
              [Some (Examples.lease_with "0" "token-0" (Examples.minutes 69));
               Some (Examples.lease_with "1" "token-1" (Examples.minutes 95))] []
              (fun _ => eq_refl) eq_refl) as (r & tr & Hrun & Hrel & _).
  exists r, tr. split; [exact Hrun | exact Hrel].
Defined.

(** ** The staleness condition over time *)

(** X10: Staleness is monotone: a record that is stale stays stale as the clock
    advances and under any shorter window, as long as its checkpoint does not
    move.  A record whose checkpoint is not in the past (the writer's clock is
    ahead) is not stale for any non-negative window. *)
Theorem isStale_monotone (window window' : time.Duration) (now now' : time.Time)
    (lease : StorageLease) :
  (isStale window now lease = Val true -> now <= now' -> window' <= window ->
   isStale window' now' lease = Val true) /\
  (forall cp, StorageCheckpoint lease = Some cp -> now <= EnqueueTime cp -> 0 <= window ->
     isStale window now lease = Val false).
Proof.
  unfold isStale, time.Before, time.Add. split.
  - destruct (StorageCheckpoint lease) as [cp|]; [|intros H; discriminate H].
    intros [= Hstale] Hnow Hwin. f_equal.
    apply Z.ltb_lt in Hstale. apply Z.ltb_lt. lia.
  - intros cp -> Hfuture Hwin. f_equal. apply Z.ltb_ge. lia.
Qed.

Lemma isStale_monotone_witness :
  isStale (10 * time.Minute) (Examples.minutes 500)
    (Examples.lease_with "0" "token-0" (Examples.minutes 69)) = Val true /\
  isStale stalenessWindow Examples.now0
    (Examples.lease_with "0" "token-0" (Examples.minutes 130)) = Val false.
Proof.
  split.
  - apply (isStale_monotone stalenessWindow (10 * time.Minute) Examples.now0
             (Examples.minutes 500) (Examples.lease_with "0" "token-0" (Examples.minutes 69))).
    + reflexivity.
    + intros H. discriminate H.
    + intros H. discriminate H.
  - apply (proj2 (isStale_monotone stalenessWindow stalenessWindow Examples.now0 Examples.now0
                    (Examples.lease_with "0" "token-0" (Examples.minutes 130))) _ eq_refl).
    + intros H. discriminate H.
    + intros H. discriminate H.
Defined.

Section FreshPass.

Variable w : World.
Variable sl : LeaseFixer.

Lemma releaseLoop_always_fresh (leases : list (option StorageLease)) :
  Forall (alwaysFresh w) leases ->
  forall lastErr h,
    exists tr,
      run (releaseLoop w sl lastErr leases) h = (Val lastErr, tr) /\
      existsb isRelease tr = false /\
      ~ In staleLog tr.
Proof.
  induction 1 as [|lease rest Hfresh _ IH]; intros lastErr h; cbn [releaseLoop].
  - exists []. repeat split. intros [].
  - destruct Hfresh as (l & cp & -> & Hcp & Hnow).
    rewrite run_bind.
    assert (Hcheck : run (checkLease w sl lastErr (Some l)) h = (Val lastErr, [EvNow (Now w h)])).
    { unfold checkLease, isStale. rewrite Hcp. rewrite run_bind, run_ask.
      unfold time.Before, time.Add.
      destruct (Z.ltb_spec (EnqueueTime cp) (Now w h + - stalenessWindow)) as [Hlt|Hge].
      - specialize (Hnow h). lia.
      - reflexivity. }
    rewrite Hcheck.
    destruct (IH lastErr (h ++ [EvNow (Now w h)])) as (tr & -> & Hrel & Hlog).
    eexists. split; [reflexivity|]. split; [exact Hrel|].
    intros [Habs|Hin]; [discriminate Habs | exact (Hlog Hin)].
Qed.

End FreshPass.

(** X9: No false positives: when every record of the snapshot has a checkpoint
    that is within the 30 minute window at every reading of the clock, the
    release pass announces and releases nothing and returns no error -- also
    for records whose embedded lease is nil -- so a scan with such a snapshot
    resets the idle counter. *)
Theorem releasePass_spares_fresh_leases (w : World) (sl : LeaseFixer)
    (leases : list (option StorageLease)) (h : History) :
  Forall (alwaysFresh w) leases ->
  exists tr,
    run (releasePass w sl leases) h = (Val None, tr) /\
    releases tr = [] /\
    ~ In staleLog tr.
Proof.
  intros Hfresh. unfold releasePass.
  destruct (releaseLoop_always_fresh w sl leases Hfresh None h) as (tr & Hrun & Hrel & Hlog).
  exists tr. split; [exact Hrun|]. split; [apply releases_none; exact Hrel | exact Hlog].
Qed.

Lemma releasePass_spares_fresh_leases_witness :
  exists tr,
    run (releasePass Examples.w_idle Examples.sl0
           [Some (Examples.lease_with "1" "token-1" (Examples.minutes 95));
            Some {| EmbeddedLease := None;
                    StorageCheckpoint :=
                      Some {| Offset := "1"; SequenceNumber := 1;
                              EnqueueTime := Examples.minutes 99 |};
                    State := LeaseStateLeased; Token := "t" |}]) []
    = (Val None, tr) /\
    releases tr = [].
Proof.
  destruct (releasePass_spares_fresh_leases Examples.w_idle Examples.sl0
              [Some (Examples.lease_with "1" "token-1" (Examples.minutes 95));
               Some {| EmbeddedLease := None;
                       StorageCheckpoint :=
                         Some {| Offset := "1"; SequenceNumber := 1;
                                 EnqueueTime := Examples.minutes 99 |};
                       State := LeaseStateLeased; Token := "t" |}] [])
    as (tr & Hrun & Hrel & _).
  - repeat constructor.
    + eexists. eexists. split; [reflexivity|]. split; [reflexivity|].
      intros h' H. discriminate H.
    + eexists. eexists. split; [reflexivity|]. split; [reflexivity|].
      intros h' H. discriminate H.
  - exists tr. split; [exact Hrun | exact Hrel].
Defined.

(** ** eph.go: more on the watchdog loop *)

Section LoopMore.

Variable w : World.
Variable sl : LeaseFixer.

Lemma checkLease_kinds (lastErr : option error) (lease : option StorageLease) (h : History) :
  forallb isScanEvent (snd (run (checkLease w sl lastErr lease) h)) = true.
Proof.
  unfold checkLease. rewrite run_bind, run_ask.
  destruct lease as [lease|]; [|reflexivity].
  unfold isStale, ReleaseLease, GetPartitionID.
  destruct (StorageCheckpoint lease) as [cp|]; [|reflexivity].
  destruct (time.Before _ _); [|reflexivity].
  destruct (EmbeddedLease lease) as [l|]; [|reflexivity].
  unfold run, mbind, M_bind, bind, lift, emit, ask, mret, M_ret, ret.
  destruct (BlobReleaseLease w _ _ _) as [e|]; reflexivity.
Qed.

Lemma releaseLoop_kinds (leases : list (option StorageLease)) :
  forall lastErr h,
    forallb isScanEvent (snd (run (releaseLoop w sl lastErr leases) h)) = true.
Proof.
  induction leases as [|lease rest IH]; intros lastErr h; cbn [releaseLoop].
  - reflexivity.
  - rewrite run_bind.
    pose proof (checkLease_kinds lastErr lease h) as H1.
    destruct (run (checkLease w sl lastErr lease) h) as [[r1|msg] t1]; cbn [snd] in *; [|exact H1].
    specialize (IH r1 (h ++ t1)).
    destruct (run (releaseLoop w sl r1 rest) (h ++ t1)) as [r2 t2]; cbn [snd] in *.
    rewrite forallb_app, H1, IH. reflexivity.
Qed.

Lemma downloads_are_scan_events (t : list Event) :
  forallb isDownload t = true -> forallb isScanEvent t = true.
Proof.
  induction t as [|e t IH]; [reflexivity|].
  cbn [forallb]. intros H. apply andb_true_iff in H as [He Ht].
  rewrite (IH Ht). destruct e; try discriminate He. reflexivity.
Qed.

Lemma GetLeases_kinds (h : History) :
  forallb isScanEvent (snd (run (GetLeases w sl) h)) = true.
Proof.
  rewrite run_GetLeases. cbn zeta.
  pose proof (GetLeases_loop_only_downloads w sl (GetPartitionIDs w h) 0
                (replicate (length (GetPartitionIDs w h)) None)
                (h ++ [EvGetPartitionIDs (GetPartitionIDs w h)])) as H.
  destruct (run (GetLeases_loop w sl 0 _ _) _) as [r t]. cbn [snd] in *.
  cbn [forallb isScanEvent andb]. apply downloads_are_scan_events. exact H.
Qed.

Lemma scan_kinds (c : Z) (h : History) :
  forallb isScanEvent (snd (run (scan w sl c) h)) = true.
Proof.
  destruct (Z.lt_ge_cases idleTickThreshold c) as [Habove|Hbelow].
  - rewrite (run_scan_above w sl c h Habove).
    pose proof (GetLeases_kinds (h ++ [idleLog])) as Hg.
    destruct (run (GetLeases w sl) (h ++ [idleLog])) as [[[err|leases]|msg] t1]; cbn [snd] in *.
    + cbn [forallb isScanEvent idleLog andb]. rewrite forallb_app, Hg. reflexivity.
    + pose proof (releaseLoop_kinds leases None ((h ++ [idleLog]) ++ t1)) as Hp.
      fold (releasePass w sl leases) in Hp.
      destruct (run (releasePass w sl leases) _) as [[[e|]|msg] t2]; cbn [snd] in *;
        cbn [forallb isScanEvent idleLog andb]; rewrite forallb_app, Hg, Hp; reflexivity.
    + cbn [forallb isScanEvent idleLog andb]. exact Hg.
  - rewrite run_scan_below by exact Hbelow. reflexivity.
Qed.

(** A tick is one activity observation followed by scan events. *)
Lemma tick_shape (c : Z) (h : History) :
  exists t,
    snd (run (tick w sl c) h) = EvBeingProcessed (PartitionIDsBeingProcessed w h) :: t /\
    forallb isScanEvent t = true.
Proof.
  rewrite run_tick, run_observe.
  pose proof (scan_kinds
                (if Nat.eqb (length (PartitionIDsBeingProcessed w h)) 0
                 then wrap_int (c + 1) else 0)
                (h ++ [EvBeingProcessed (PartitionIDsBeingProcessed w h)])) as Hk.
  destruct (run (scan w sl _) _) as [r t2]. cbn [snd] in *.
  exists t2. split; [reflexivity | exact Hk].
Qed.

Lemma scan_events_no_sleep (t : list Event) :
  forallb isScanEvent t = true ->
  sleeps t = [] /\ observations t = [] /\ forallb isWatchdogEvent t = true.
Proof.
  induction t as [|e t IH]; [repeat split|].
  cbn [forallb]. intros H. apply andb_true_iff in H as [He Ht].
  destruct (IH Ht) as (Hs & Ho & Hw).
  destruct e; try discriminate He; cbn; rewrite ?Hw; repeat split; assumption.
Qed.

Lemma sleeps_app (t1 t2 : list Event) : sleeps (t1 ++ t2) = sleeps t1 ++ sleeps t2.
Proof. unfold sleeps. apply omap_app. Qed.

Lemma observations_app (t1 t2 : list Event) :
  observations (t1 ++ t2) = observations t1 ++ observations t2.
Proof. unfold observations. apply omap_app. Qed.

(** The cadence of the loop, by induction on the iterations. *)
Lemma watchdogLoop_cadence_aux (fuel : nat) :
  forall c h exit tr,
    run (watchdogLoop w fuel sl c) h = (Val exit, tr) ->
    sleeps tr = replicate (length (observations tr)) pollInterval /\
    (length (observations tr) <= fuel)%nat /\
    (exit = OutOfFuel -> length (observations tr) = fuel).
Proof.
  induction fuel as [|fuel IH]; intros c h exit tr.
  - cbn [watchdogLoop]. rewrite run_ret. intros [= <- <-].
    split; [reflexivity|]. split; [cbn; lia|]. intros _. reflexivity.
  - destruct (watcherCtxDone w h) eqn:Hdone.
    + rewrite run_watchdogLoop_done by exact Hdone. intros [= <- <-].
      split; [reflexivity|]. split; [cbn; lia|]. intros H. discriminate H.
    + rewrite run_watchdogLoop_step by exact Hdone.
      destruct (tick_shape c h) as (t & Ht & Hkinds).
      destruct (run (tick w sl c) h) as [[c'|msg] t1]; cbn [snd] in Ht; subst t1; [|intros [= ]].
      destruct (run (watchdogLoop w fuel sl c') _) as [r t2] eqn:Hrest.
      intros [= -> <-].
      destruct (IH _ _ _ _ Hrest) as (Hs & Hle & Hout).
      destruct (scan_events_no_sleep t Hkinds) as (Hts & Hto & _).
      assert (Hsl : sleeps (EvBeingProcessed (PartitionIDsBeingProcessed w h)
                              :: t ++ EvSleep pollInterval :: t2)
                    = pollInterval :: sleeps t2).
      { transitivity (sleeps (t ++ EvSleep pollInterval :: t2)); [reflexivity|].
        rewrite sleeps_app, Hts. reflexivity. }
      assert (Hob : observations (EvBeingProcessed (PartitionIDsBeingProcessed w h)
                                    :: t ++ EvSleep pollInterval :: t2)
                    = PartitionIDsBeingProcessed w h :: observations t2).
      { transitivity (PartitionIDsBeingProcessed w h
                        :: observations (t ++ EvSleep pollInterval :: t2)); [reflexivity|].
        rewrite observations_app, Hto. reflexivity. }
      cbn [app]. rewrite Hsl, Hob, Hs. cbn [length replicate].
      split; [reflexivity|]. split; [lia|]. intros Hexit. f_equal. exact (Hout Hexit).
Qed.

Lemma watchdogLoop_returned_done (fuel : nat) :
  forall c h tr,
    run (watchdogLoop w fuel sl c) h = (Val Returned, tr) ->
    watcherCtxDone w (h ++ tr) = true.
Proof.
  induction fuel as [|fuel IH]; intros c h tr.
  - cbn [watchdogLoop]. rewrite run_ret. intros [= ].
  - destruct (watcherCtxDone w h) eqn:Hdone.
    + rewrite run_watchdogLoop_done by exact Hdone. intros [= <-].
      rewrite app_nil_r. exact Hdone.
    + rewrite run_watchdogLoop_step by exact Hdone.
      destruct (run (tick w sl c) h) as [[c'|msg] t1]; [|intros [= ]].
      destruct (run (watchdogLoop w fuel sl c') _) as [r t2] eqn:Hrest.
      intros [= -> <-].
      apply IH in Hrest. rewrite <- !app_assoc in Hrest. exact Hrest.
Qed.

Lemma watchdogLoop_kinds (fuel : nat) :
  forall c h, forallb isWatchdogEvent (snd (run (watchdogLoop w fuel sl c) h)) = true.
Proof.
  induction fuel as [|fuel IH]; intros c h.
  - reflexivity.
  - destruct (watcherCtxDone w h) eqn:Hdone.
    + rewrite run_watchdogLoop_done by exact Hdone. reflexivity.
    + rewrite run_watchdogLoop_step by exact Hdone.
      destruct (tick_shape c h) as (t & Ht & Hkinds).
      destruct (scan_events_no_sleep t Hkinds) as (_ & _ & Hw).
      destruct (run (tick w sl c) h) as [[c'|msg] t1]; cbn [snd] in *; subst t1.
      * specialize (IH c' (h ++ (EvBeingProcessed (PartitionIDsBeingProcessed w h) :: t)
                             ++ [EvSleep pollInterval])).
        destruct (run (watchdogLoop w fuel sl c') _) as [r t2]. cbn [snd] in *.
        cbn [app forallb isWatchdogEvent andb]. rewrite forallb_app, Hw. cbn. exact IH.
      * cbn [forallb isWatchdogEvent andb]. exact Hw.
Qed.

End LoopMore.

(** X13: The loop ends only by cancellation.  When it returns, the watcher context
    is done at that point, and this is because the worker context is done or
    because [cancelWatcher] had been called before the loop's part of the
    history: the loop itself never cancels the context, stops the input or
    calls the event callback.  While the worker context is never done and
    [cancelWatcher] was not called, the loop does not return: it runs until
    the iterations are used up, or panics. *)
Theorem watchdogLoop_ends_only_by_cancellation (w : World) (sl : LeaseFixer)
    (fuel : nat) (c : Z) (h : History) :
  (forall tr,
     run (watchdogLoop w fuel sl c) h = (Val Returned, tr) ->
     watcherCtxDone w (h ++ tr) = true /\
     (workerCtxDone w (h ++ tr) = true \/ In EvCancelWatcher h)) /\
  forallb isWatchdogEvent (snd (run (watchdogLoop w fuel sl c) h)) = true /\
  ((forall h', workerCtxDone w h' = false) ->
   ~ In EvCancelWatcher h ->
   fst (run (watchdogLoop w fuel sl c) h) = Val OutOfFuel \/
   exists msg, fst (run (watchdogLoop w fuel sl c) h) = Panic msg).
Proof.
  pose proof (watchdogLoop_kinds w sl fuel c h) as Hkinds.
  assert (Hreturned : forall tr,
             run (watchdogLoop w fuel sl c) h = (Val Returned, tr) ->
             watcherCtxDone w (h ++ tr) = true /\
             (workerCtxDone w (h ++ tr) = true \/ In EvCancelWatcher h)).
  2:{ split; [exact Hreturned|]. split; [exact Hkinds|].
      intros Hlive Hfresh.
      destruct (run (watchdogLoop w fuel sl c) h) as [[[|]|msg] tr] eqn:Hrun; cbn [fst].
      - destruct (Hreturned tr eq_refl) as [_ [Hworker|Hcancel]].
        + rewrite Hlive in Hworker. discriminate Hworker.
        + contradiction.
      - left. reflexivity.
      - right. eexists. reflexivity. }
  - intros tr Hrun. rewrite Hrun in Hkinds. cbn [snd] in Hkinds.
    pose proof (watchdogLoop_returned_done w sl fuel c h tr Hrun) as Hdone.
    split; [exact Hdone|].
    unfold watcherCtxDone in Hdone. apply orb_true_iff in Hdone as [Hworker|Hcancel].
    + left. exact Hworker.
    + right. apply existsb_exists in Hcancel as (e & Hin & He).
      destruct e; try discriminate He.
      apply in_app_or in Hin as [Hin|Hin]; [exact Hin|].
      rewrite forallb_forall in Hkinds. specialize (Hkinds _ Hin). discriminate Hkinds.
Qed.

Lemma watchdogLoop_ends_only_by_cancellation_witness :
  watcherCtxDone Examples.w_cancel_mid_tick
    ([] ++ [EvBeingProcessed ["1"]; EvSleep pollInterval]) = true /\
  fst (run (watchdogLoop Examples.w_active 5 Examples.sl0 0) []) = Val OutOfFuel.
Proof.
  split.
  - apply (proj1 (watchdogLoop_ends_only_by_cancellation Examples.w_cancel_mid_tick
                    Examples.sl0 3 0 [])).
    reflexivity.
  - destruct (proj2 (proj2 (watchdogLoop_ends_only_by_cancellation Examples.w_active
                              Examples.sl0 5 0 [])) (fun _ => eq_refl) (fun H => H))
      as [Hout|[msg Hmsg]].
    + exact Hout.
    + discriminate Hmsg.
Defined.

(** X14: The polling cadence is fixed: in a run of the loop that does not panic,
    every iteration makes one activity observation and then sleeps exactly
    one poll interval (one second); there are at most as many iterations as
    the bound allows, and exactly that many when the loop was not
    cancelled. *)
Theorem watchdogLoop_fixed_cadence (w : World) (sl : LeaseFixer) (fuel : nat) (c : Z)
    (h : History) (exit : LoopExit) (tr : list Event) :
  run (watchdogLoop w fuel sl c) h = (Val exit, tr) ->
  sleeps tr = replicate (length (observations tr)) (1 * time.Second) /\
  (length (observations tr) <= fuel)%nat /\
  (exit = OutOfFuel -> length (observations tr) = fuel).
Proof. apply watchdogLoop_cadence_aux. Qed.

Lemma watchdogLoop_fixed_cadence_witness :
  sleeps (snd (run (watchdogLoop Examples.w_idle 3 Examples.sl0 0) []))
  = [1000000000; 1000000000; 1000000000].
Proof.
  destruct (run (watchdogLoop Examples.w_idle 3 Examples.sl0 0) []) as [r tr] eqn:Hrun.
  assert (Hval := Hrun). vm_compute in Hval. injection Hval as <- <-.
  destruct (watchdogLoop_fixed_cadence _ _ _ _ _ _ _ Hrun) as (Hsleeps & _).
  exact Hsleeps.
Defined.

(** X12: With no partition reported by the scheduler, a scan past the threshold
    consists of the query alone: nothing is downloaded or released, and the
    idle counter is reset to 0. *)
Theorem scan_without_partitions (w : World) (sl : LeaseFixer) (c : Z) (h : History) :
  idleTickThreshold < c ->
  GetPartitionIDs w (h ++ [idleLog]) = [] ->
  run (scan w sl c) h = (Val 0, [idleLog; EvGetPartitionIDs []]).
Proof.
  intros Hc Hnone. rewrite (run_scan_above w sl c h Hc), run_GetLeases. cbn zeta.
  rewrite Hnone. reflexivity.
Qed.

Lemma scan_without_partitions_witness :
  run (scan SetupExamples.w_no_partitions Examples.sl0 61) [EvBeingProcessed []]
  = (Val 0, [idleLog; EvGetPartitionIDs []]).
Proof.
  apply scan_without_partitions; reflexivity.
Defined.

Section NoBackOff.

Variable w : World.
Variable sl : LeaseFixer.

Hypothesis always_idle : forall h, PartitionIDsBeingProcessed w h = [].
Hypothesis worker_live : forall h, workerCtxDone w h = false.
Hypothesis snapshot_fails : forall h, exists err, fst (run (GetLeases w sl) h) = Val (inl err).

Lemma scanQueries_app (t1 t2 : list Event) :
  scanQueries (t1 ++ t2) = scanQueries t1 ++ scanQueries t2.
Proof. unfold scanQueries. apply omap_app. Qed.

Lemma tick_snapshot_fails (c : Z) (h : History) :
  idleTickThreshold <= c < max_int ->
  exists tr,
    run (tick w sl c) h = (Val (c + 1), tr) /\
    length (scanQueries tr) = 1%nat /\
    releases tr = [] /\
    existsb isCancelWatcher tr = false.
Proof.
  intros Hc. unfold idleTickThreshold in Hc.
  rewrite run_tick, run_observe, always_idle. cbn [length Nat.eqb].
  rewrite wrap_int_succ by (unfold min_int, max_int in *; lia).
  rewrite run_scan_above by (unfold idleTickThreshold; lia).
  destruct (snapshot_fails ((h ++ [EvBeingProcessed []]) ++ [idleLog])) as [err Herr].
  destruct (GetLeases_only_reads_aux w sl ((h ++ [EvBeingProcessed []]) ++ [idleLog]))
    as (r & t & Hrun & Hd).
  rewrite Hrun in *. cbn [fst] in Herr. injection Herr as ->.
  eexists. split; [reflexivity|].
  assert (Hq : scanQueries t = [] /\ releases t = [] /\ existsb isCancelWatcher t = false).
  { clear -Hd. induction t as [|e t IH]; [repeat split|].
    cbn [forallb] in Hd. apply andb_true_iff in Hd as [He Ht].
    destruct (IH Ht) as (Hq & Hr & Hcw). destruct e; try discriminate He.
    repeat split; assumption. }
  destruct Hq as (Hq & Hr & Hcw).
  split; [|split].
  - change (length (scanQueries ([EvBeingProcessed []; idleLog;
                                  EvGetPartitionIDs
                                    (GetPartitionIDs w ((h ++ [EvBeingProcessed []]) ++ [idleLog]))]
                                   ++ t ++ [snapshotFailedLog])) = 1%nat).
    rewrite !scanQueries_app, Hq. reflexivity.
  - change (releases ([EvBeingProcessed []; idleLog;
                       EvGetPartitionIDs
                         (GetPartitionIDs w ((h ++ [EvBeingProcessed []]) ++ [idleLog]))]
                        ++ t ++ [snapshotFailedLog]) = []).
    rewrite !releases_app, Hr. reflexivity.
  - change (existsb isCancelWatcher
              ([EvBeingProcessed []; idleLog;
                EvGetPartitionIDs
                  (GetPartitionIDs w ((h ++ [EvBeingProcessed []]) ++ [idleLog]))]
                 ++ t ++ [snapshotFailedLog]) = false).
    rewrite !existsb_app, Hcw. reflexivity.
Qed.

Lemma watchdogLoop_no_back_off (fuel : nat) :
  forall c h,
    existsb isCancelWatcher h = false ->
    idleTickThreshold <= c -> c + Z.of_nat fuel < max_int ->
    exists tr,
      run (watchdogLoop w fuel sl c) h = (Val OutOfFuel, tr) /\
      length (scanQueries tr) = fuel /\
      releases tr = [].
Proof.
  induction fuel as [|fuel IH]; intros c h Hfresh Hc Hmax.
  - exists []. repeat split.
  - rewrite run_watchdogLoop_step
      by (unfold watcherCtxDone; rewrite worker_live, Hfresh; reflexivity).
    destruct (tick_snapshot_fails c h) as (t1 & -> & Hq1 & Hr1 & Hc1); [lia|].
    destruct (IH (c + 1) (h ++ t1 ++ [EvSleep pollInterval])) as (t2 & -> & Hq2 & Hr2);
      [rewrite !existsb_app, Hfresh, Hc1; reflexivity | lia..|].
    eexists. split; [reflexivity|].
    change (t1 ++ EvSleep pollInterval :: t2) with (t1 ++ [EvSleep pollInterval] ++ t2).
    rewrite !scanQueries_app, !length_app, Hq1, Hq2, !releases_app, Hr1, Hr2.
    split; reflexivity.
Qed.

End NoBackOff.

(** X15: No back-off: while no partition is being processed, nobody cancels and
    the snapshot keeps failing, the watchdog, once its counter has reached the
    threshold, queries the partition list again on every single iteration --
    one scan per poll interval -- and never releases anything. *)
Theorem watchdog_rescans_every_tick_while_snapshot_fails (w : World) (sl : LeaseFixer)
    (fuel : nat) (c : Z) (h : History) :
  (forall h', PartitionIDsBeingProcessed w h' = []) ->
  (forall h', workerCtxDone w h' = false) ->
  (forall h', exists err, fst (run (GetLeases w sl) h') = Val (inl err)) ->
  existsb isCancelWatcher h = false ->
  idleTickThreshold <= c ->
  c + Z.of_nat fuel < max_int ->
  exists tr,
    run (watchdogLoop w fuel sl c) h = (Val OutOfFuel, tr) /\
    length (scanQueries tr) = fuel /\
    releases tr = [].
Proof.
  intros Hidle Hlive Hfails Hfresh Hc Hmax.
  exact (watchdogLoop_no_back_off w sl Hidle Hlive Hfails fuel c h Hfresh Hc Hmax).
Qed.

Lemma watchdog_rescans_every_tick_while_snapshot_fails_witness :
  exists tr,
    run (watchdogLoop Examples.w_read_fails 3 Examples.sl0 60) [] = (Val OutOfFuel, tr) /\
    length (scanQueries tr) = 3%nat /\
    releases tr = [].
Proof.
  apply watchdog_rescans_every_tick_while_snapshot_fails.
  - intros h'. reflexivity.
  - intros h'. reflexivity.
  - intros h'. exists TransientIOError. reflexivity.
  - reflexivity.
  - intros H. discriminate H.
  - reflexivity.
Defined.

(** ** eph.go: [getAzureEnvironment] *)

Lemma environments_lookup (az : AzurePkg) (k : string) (env : Environment) :
  environments az !! k = Some env ->
  ResourceManagerEndpoint env = k /\
  (env = ChinaCloud az \/ env = GermanCloud az \/ env = PublicCloud az \/
   env = USGovernmentCloud az).
Proof.
  unfold environments. intros H.
  rewrite !lookup_insert_Some, lookup_empty in H.
  destruct H as [[<- <-]|[_ [[<- <-]|[_ [[<- <-]|[_ [[<- <-]|[_ H]]]]]]]];
    [tauto..|discriminate H].
Qed.

Lemma environments_lookup_None (az : AzurePkg) (k : string) :
  environments az !! k = None <->
  k <> ResourceManagerEndpoint (ChinaCloud az) /\
  k <> ResourceManagerEndpoint (GermanCloud az) /\
  k <> ResourceManagerEndpoint (PublicCloud az) /\
  k <> ResourceManagerEndpoint (USGovernmentCloud az).
Proof.
  unfold environments. rewrite !lookup_insert_None. split.
  - intros [[[[_ H1] H2] H3] H4]. repeat split; congruence.
  - intros (H1 & H2 & H3 & H4). repeat split; congruence.
Qed.

(** X16: What [getAzureEnvironment] can answer.  An empty override or the
    unrendered template value selects the public cloud.  Any other
    environment it returns from its table has the override as resource
    manager endpoint and is one of the four predefined clouds.  Only an
    override that is none of the four endpoints is passed to
    [azure.EnvironmentFromURL], whose answer, error included, is returned
    unchanged: the function fails only when that resolution fails. *)
Theorem getAzureEnvironment_result (az : AzurePkg) (overrideResManager : string) :
  (overrideResManager = "" \/ overrideResManager = "<no value>" ->
   getAzureEnvironment az overrideResManager = inr (PublicCloud az)) /\
  (overrideResManager <> "" -> overrideResManager <> "<no value>" ->
   (forall env, environments az !! overrideResManager = Some env ->
      getAzureEnvironment az overrideResManager = inr env /\
      ResourceManagerEndpoint env = overrideResManager /\
      (env = ChinaCloud az \/ env = GermanCloud az \/ env = PublicCloud az \/
       env = USGovernmentCloud az)) /\
   (overrideResManager <> ResourceManagerEndpoint (ChinaCloud az) ->
    overrideResManager <> ResourceManagerEndpoint (GermanCloud az) ->
    overrideResManager <> ResourceManagerEndpoint (PublicCloud az) ->
    overrideResManager <> ResourceManagerEndpoint (USGovernmentCloud az) ->
    getAzureEnvironment az overrideResManager = EnvironmentFromURL az overrideResManager)) /\
  (forall err, getAzureEnvironment az overrideResManager = inl err ->
     EnvironmentFromURL az overrideResManager = inl err /\
     environments az !! overrideResManager = None).
Proof.
  unfold getAzureEnvironment. split; [|split].
  - intros [-> | ->]; reflexivity.
  - intros Hne1 Hne2.
    apply String.eqb_neq in Hne1. apply String.eqb_neq in Hne2. rewrite Hne1, Hne2.
    cbn [orb]. split.
    + intros env Hlook. rewrite Hlook. split; [reflexivity|].
      exact (environments_lookup az _ env Hlook).
    + intros H1 H2 H3 H4.
      assert (Hnone : environments az !! overrideResManager = None).
      { apply environments_lookup_None. repeat split; assumption. }
      rewrite Hnone. reflexivity.
  - intros err.
    destruct (String.eqb overrideResManager "" || String.eqb overrideResManager "<no value>");
      [intros H; discriminate H|].
    destruct (environments az !! overrideResManager) as [env|]; [intros H; discriminate H|].
    intros H. split; [exact H | reflexivity].
Qed.

Lemma getAzureEnvironment_result_witness :
  getAzureEnvironment SetupExamples.az0 "<no value>" = inr SetupExamples.public /\
  getAzureEnvironment SetupExamples.az0 "https://management.local.azurestack.external/"
    = inr SetupExamples.stack /\
  EnvironmentFromURL SetupExamples.az0 "https://nowhere.example/" = inl NotFoundError.
Proof.
  split; [|split].
  - apply (proj1 (getAzureEnvironment_result SetupExamples.az0 "<no value>")).
    right. reflexivity.
  - etransitivity.
    + apply (proj1 (proj2 (getAzureEnvironment_result SetupExamples.az0
                             "https://management.local.azurestack.external/")));
        intros H; discriminate H.
    + reflexivity.
  - apply (proj2 (proj2 (getAzureEnvironment_result SetupExamples.az0
                           "https://nowhere.example/"))).
    reflexivity.
Defined.

(** X17: Each predefined cloud is selected by its own resource manager endpoint,
    provided the four endpoints are pairwise distinct and none of them is
    empty or the unrendered template value. *)
Theorem getAzureEnvironment_predefined (az : AzurePkg) (env : Environment) :
  NoDup [ResourceManagerEndpoint (ChinaCloud az); ResourceManagerEndpoint (GermanCloud az);
         ResourceManagerEndpoint (PublicCloud az);
         ResourceManagerEndpoint (USGovernmentCloud az)] ->
  In env [ChinaCloud az; GermanCloud az; PublicCloud az; USGovernmentCloud az] ->
  ResourceManagerEndpoint env <> "" ->
  ResourceManagerEndpoint env <> "<no value>" ->
  getAzureEnvironment az (ResourceManagerEndpoint env) = inr env.
Proof.
  intros Hdup Hin Hne1 Hne2.
  unfold getAzureEnvironment.
  apply String.eqb_neq in Hne1. apply String.eqb_neq in Hne2. rewrite Hne1, Hne2.
  cbn [orb].
  assert (Hlook : environments az !! ResourceManagerEndpoint env = Some env).
  { apply NoDup_cons in Hdup as [Hc Hdup].
    apply NoDup_cons in Hdup as [Hg Hdup].
    apply NoDup_cons in Hdup as [Hp _].
    assert (Hcg : ResourceManagerEndpoint (ChinaCloud az)
                  <> ResourceManagerEndpoint (GermanCloud az)) by (intros E; apply Hc; rewrite E; rewrite !elem_of_cons; auto).
    assert (Hcp : ResourceManagerEndpoint (ChinaCloud az)
                  <> ResourceManagerEndpoint (PublicCloud az)) by (intros E; apply Hc; rewrite E; rewrite !elem_of_cons; auto).
    assert (Hcu : ResourceManagerEndpoint (ChinaCloud az)
                  <> ResourceManagerEndpoint (USGovernmentCloud az)) by (intros E; apply Hc; rewrite E; rewrite !elem_of_cons; auto).
    assert (Hgp : ResourceManagerEndpoint (GermanCloud az)
                  <> ResourceManagerEndpoint (PublicCloud az)) by (intros E; apply Hg; rewrite E; rewrite !elem_of_cons; auto).
    assert (Hgu : ResourceManagerEndpoint (GermanCloud az)
                  <> ResourceManagerEndpoint (USGovernmentCloud az)) by (intros E; apply Hg; rewrite E; rewrite !elem_of_cons; auto).
    assert (Hpu : ResourceManagerEndpoint (PublicCloud az)
                  <> ResourceManagerEndpoint (USGovernmentCloud az)) by (intros E; apply Hp; rewrite E; rewrite !elem_of_cons; auto).
    unfold environments.
    destruct Hin as [<-|[<-|[<-|[<-|[]]]]].
    - rewrite !lookup_insert_ne by congruence. apply lookup_insert_eq.
    - rewrite !lookup_insert_ne by congruence. apply lookup_insert_eq.
    - rewrite !lookup_insert_ne by congruence. apply lookup_insert_eq.
    - apply lookup_insert_eq. }
  rewrite Hlook. reflexivity.
Qed.

Lemma getAzureEnvironment_predefined_witness :
  getAzureEnvironment SetupExamples.az0 "https://management.microsoftazure.de/"
  = inr SetupExamples.german.
Proof.
  apply (getAzureEnvironment_predefined SetupExamples.az0 SetupExamples.german).
  - repeat constructor; rewrite ?elem_of_cons, ?elem_of_nil; intros H;
      repeat (destruct H as [H|H]; [discriminate H|]); exact H.
  - right. left. reflexivity.
  - intros H. discriminate H.
  - intros H. discriminate H.
Defined.

(** ** eph.go: the set-up of [runWithEPH] *)

Ltac setup_cases :=
  unfold runWithEPH, mbind, Setup_bind, setup_bind, setup_call, setup_call_val, logged,
    NewLeaseFixer;
  destruct (String.eqb (ConsumerGroup _) "") eqn:?; cbn [negb];
  repeat match goal with
         | |- context [match ?x with _ => _ end] =>
             lazymatch x with
             | context [match _ with _ => _ end] => fail
             | _ => destruct x eqn:?
             end
         end.

(** X18: [runWithEPH] returns nil exactly when it has started the watchdog
    goroutine, and then it has made, in this order, the credential, the
    checkpointer for the selected environment, the processor, the handler
    registration and the start of the processor; the watchdog's fixer is built
    from the storage account and container of the configuration and has an
    empty blob path prefix.  When it returns an error the watchdog is not
    started. *)
Theorem runWithEPH_starts_watchdog_iff_nil (az : AzurePkg) (sdk : Sdk)
    (eventHubConnector : string) (cfg : azureInputConfig) :
  (fst (runWithEPH az sdk eventHubConnector cfg) = inr tt <->
   existsb isGoWatchdog (snd (runWithEPH az sdk eventHubConnector cfg)) = true) /\
  (fst (runWithEPH az sdk eventHubConnector cfg) = inr tt ->
   exists env handlerID,
     getAzureEnvironment az (OverrideEnvironment cfg) = inr env /\
     snd (runWithEPH az sdk eventHubConnector cfg)
     = [SeNewSharedKeyCredential (SAName cfg) (SAKey cfg);
        SeNewStorageLeaserCheckpointer (SAName cfg) (SAContainer cfg) env;
        SeNewFromConnectionString (connectionStringOf eventHubConnector cfg)
          (processorOptionsOf cfg);
        SeRegisterHandler;
        SeInfof handlerID;
        SeStartNonBlocking;
        SeGoWatchdog {| containerName := SAContainer cfg; accountName := SAName cfg;
                        blobPathPrefix := "" |}]).
Proof.
  unfold connectionStringOf, processorOptionsOf.
  split.
  - setup_cases; cbn; split; intros H; try discriminate H; reflexivity.
  - setup_cases; cbn; intros H; try discriminate H.
    + eexists. eexists. split; reflexivity.
    + eexists. eexists. split; reflexivity.
Qed.

Lemma runWithEPH_starts_watchdog_iff_nil_witness :
  existsb isGoWatchdog
    (snd (runWithEPH SetupExamples.az0 SetupExamples.sdk_ok ";EntityPath=" SetupExamples.cfg0))
  = true /\
  existsb isGoWatchdog
    (snd (runWithEPH SetupExamples.az0 SetupExamples.sdk_start_fails ";EntityPath="
            SetupExamples.cfg0))
  = false.
Proof.
  split.
  - apply (proj1 (runWithEPH_starts_watchdog_iff_nil SetupExamples.az0 SetupExamples.sdk_ok
                    ";EntityPath=" SetupExamples.cfg0)).
    reflexivity.
  - destruct (existsb isGoWatchdog _) eqn:Hgo; [|reflexivity].
    apply (proj1 (runWithEPH_starts_watchdog_iff_nil SetupExamples.az0
                    SetupExamples.sdk_start_fails ";EntityPath=" SetupExamples.cfg0)) in Hgo.
    discriminate Hgo.
Defined.

(** X19: The processor is always created from the connection string followed by
    the connector and the event hub name, and always without banner; the
    consumer group option is passed exactly when the configured consumer
    group is not empty, and then with that group. *)
Theorem runWithEPH_processor_arguments (az : AzurePkg) (sdk : Sdk)
    (eventHubConnector : string) (cfg : azureInputConfig)
    (connStr : string) (opts : list ProcessorOption) :
  In (SeNewFromConnectionString connStr opts) (snd (runWithEPH az sdk eventHubConnector cfg)) ->
  connStr = String.append (ConnectionString cfg)
              (String.append eventHubConnector (EventHubName cfg)) /\
  (ConsumerGroup cfg = "" -> opts = [WithNoBanner]) /\
  (ConsumerGroup cfg <> "" -> opts = [WithConsumerGroup (ConsumerGroup cfg); WithNoBanner]).
Proof.
  intros Hin.
  assert (Hev : connStr = connectionStringOf eventHubConnector cfg /\
                opts = processorOptionsOf cfg).
  { revert Hin. unfold connectionStringOf, processorOptionsOf.
    setup_cases; cbn; intros Hin;
      repeat (destruct Hin as [Hin|Hin]; [try discriminate Hin|]); try contradiction;
      injection Hin as <- <-; split; reflexivity. }
  destruct Hev as [-> ->]. split; [reflexivity|].
  unfold processorOptionsOf.
  destruct (String.eqb_spec (ConsumerGroup cfg) "") as [Hempty|Hnonempty]; split; intros Hcg;
    reflexivity || contradiction.
Qed.

Lemma runWithEPH_processor_arguments_witness :
  In (SeNewFromConnectionString
        "Endpoint=sb://hub.example/;SharedAccessKey=k;EntityPath=logs" [WithNoBanner])
     (snd (runWithEPH SetupExamples.az0 SetupExamples.sdk_ok ";EntityPath="
             SetupExamples.cfg_no_group)) /\
  forall connStr opts,
    In (SeNewFromConnectionString connStr opts)
       (snd (runWithEPH SetupExamples.az0 SetupExamples.sdk_ok ";EntityPath="
               SetupExamples.cfg0)) ->
    opts = [WithConsumerGroup "$Default"; WithNoBanner].
Proof.
  split.
  - right. right. left. reflexivity.
  - intros connStr opts Hin.
    apply (runWithEPH_processor_arguments SetupExamples.az0 SetupExamples.sdk_ok ";EntityPath="
             SetupExamples.cfg0 connStr opts Hin).
    intros H. discriminate H.
Defined.

(** X20: When [runWithEPH] fails, it fails with the error of the first step that
    failed and makes no further call.  A rejected storage key or an
    unresolvable environment is returned without a log line; every other
    failure is logged once, as the last thing done.  In particular a failure
    to build the lease fixer is reported after the handler was registered and
    the processor started. *)
Theorem runWithEPH_failure (az : AzurePkg) (sdk : Sdk)
    (eventHubConnector : string) (cfg : azureInputConfig) (err : error) :
  fst (runWithEPH az sdk eventHubConnector cfg) = inl err ->
  (NewSharedKeyCredential sdk (SAName cfg) (SAKey cfg) = Some err /\
   snd (runWithEPH az sdk eventHubConnector cfg)
   = [SeNewSharedKeyCredential (SAName cfg) (SAKey cfg)]) \/
  (getAzureEnvironment az (OverrideEnvironment cfg) = inl err /\
   snd (runWithEPH az sdk eventHubConnector cfg)
   = [SeNewSharedKeyCredential (SAName cfg) (SAKey cfg)]) \/
  (exists t msg,
     snd (runWithEPH az sdk eventHubConnector cfg) = t ++ [SeErrorw msg err] /\
     existsb isErrorw t = false /\
     (msg = "error creating lease fixer" ->
      In SeRegisterHandler t /\ last t = Some SeStartNonBlocking)).
Proof.
  setup_cases; cbn; intros H; try discriminate H; injection H as <-.
  all: try (left; split; reflexivity).
  all: try (right; left; split; reflexivity).
  all: right; right.
  all: match goal with
       | |- exists t msg, ?l = _ /\ _ =>
           exists (removelast l); eexists; split; [cbn; reflexivity|]
       end.
  all: cbn; split; [reflexivity|]; intros Hmsg; try discriminate Hmsg.
  all: split; [|reflexivity]; auto 10.
Qed.

Lemma runWithEPH_failure_witness :
  snd (runWithEPH SetupExamples.az0 SetupExamples.sdk_bad_key ";EntityPath=" SetupExamples.cfg0)
  = [SeNewSharedKeyCredential "account" "a2V5"] /\
  exists t,
    snd (runWithEPH SetupExamples.az0 SetupExamples.sdk_start_fails ";EntityPath="
           SetupExamples.cfg0)
    = t ++ [SeErrorw "error starting the processor" TransientIOError].
Proof.
  split.
  - destruct (runWithEPH_failure SetupExamples.az0 SetupExamples.sdk_bad_key ";EntityPath="
                SetupExamples.cfg0 DeserializationError eq_refl)
      as [[_ Htr]|[[_ Htr]|(t & msg & Htr & _)]].
    + exact Htr.
    + exact Htr.
    + reflexivity.
  - destruct (runWithEPH_failure SetupExamples.az0 SetupExamples.sdk_start_fails ";EntityPath="
                SetupExamples.cfg0 TransientIOError eq_refl)
      as [[Habs _]|[[Habs _]|(t & msg & Htr & _)]].
    + discriminate Habs.
    + discriminate Habs.
    + exists (removelast
                (snd (runWithEPH SetupExamples.az0 SetupExamples.sdk_start_fails ";EntityPath="
                        SetupExamples.cfg0))).
      reflexivity.
Defined.

Lemma NewLeaseFixer_result_witness :
  NewLeaseFixer (fun _ => inl DeserializationError) "account" "container" "core.windows.net"
  = inl DeserializationError /\
  blobName Examples.sl0 "7" = "7".
Proof.
  split.
  - apply (proj1 (NewLeaseFixer_result (fun _ => inl DeserializationError)
                    "account" "container" "core.windows.net")).
    reflexivity.
  - apply (proj2 (NewLeaseFixer_result inr "account" "container" "core.windows.net")
             Examples.sl0 eq_refl).
Defined.

